(** * HTTP benchmark tool ([main.py]): embedding and verification

    A shallow embedding of [main.py]: URL validation, host-list acquisition,
    request dispatch, result aggregation and the final report, followed by
    the properties of the tool proved on that embedding. *)

From Stdlib Require Import String Ascii DecimalString.
From Stdlib Require Import ZArith NArith PArith List Bool Lia.
From Stdlib Require Import Permutation.
From Stdlib Require Import SpecFloat.
Import ListNotations.

Set Implicit Arguments.

(** ** Python values *)

(** A Python [str] is a sequence of Unicode code points. *)
Definition str := list N.

(** String literals of the source file are UTF-8 text; [lit] decodes one
    into its code points. *)
Fixpoint utf8_decode (bs : list N) : str :=
  match bs with
  | [] => []
  | b0 :: r0 =>
    if (b0 <? 128)%N then b0 :: utf8_decode r0
    else match r0 with
    | [] => [b0]
    | b1 :: r1 =>
      if (b0 <? 224)%N then ((b0 - 192) * 64 + (b1 - 128))%N :: utf8_decode r1
      else match r1 with
      | [] => [b0; b1]
      | b2 :: r2 =>
        if (b0 <? 240)%N
        then ((b0 - 224) * 4096 + (b1 - 128) * 64 + (b2 - 128))%N :: utf8_decode r2
        else match r2 with
        | [] => [b0; b1; b2]
        | b3 :: r3 =>
          ((b0 - 240) * 262144 + (b1 - 128) * 4096
           + (b2 - 128) * 64 + (b3 - 128))%N :: utf8_decode r3
        end
      end
    end
  end.

Definition lit (s : string) : str :=
  utf8_decode (map N_of_ascii (list_ascii_of_string s)).

Definition str_eq_dec : forall a b : str, {a = b} + {a <> b} :=
  list_eq_dec N.eq_dec.

Definition str_eqb (a b : str) : bool :=
  if str_eq_dec a b then true else false.

(** Python floats are IEEE 754 binary64 values. *)
Definition float := spec_float.
Definition prec : Z := 53.
Definition emax : Z := 1024.

Definition float_add : float -> float -> float := SFadd prec emax.
Definition float_sub : float -> float -> float := SFsub prec emax.
Definition float_div : float -> float -> float := SFdiv prec emax.
Definition float_lt : float -> float -> bool := SFltb.
Definition float_le : float -> float -> bool := SFleb.
Definition float_eqb : float -> float -> bool := SFeqb.
Definition float_abs : float -> float := SFabs.

Definition is_nan (x : float) : bool :=
  match x with S754_nan => true | _ => false end.

Definition is_finite (x : float) : bool :=
  match x with
  | S754_zero _ | S754_finite _ _ _ => true
  | _ => false
  end.

Definition float_zero : float := S754_zero false.

(** [float(n)] for an integer [n], and the float [m * 2^e]. *)
Definition float_of_Z (n : Z) : float := binary_normalize prec emax n 0 false.
Definition float_of_nat (n : nat) : float := float_of_Z (Z.of_nat n).
Definition float_scaled (m e : Z) : float := binary_normalize prec emax m e false.

(** Truthiness of an optional command-line string: [None] and the empty
    string are false. *)
Definition truthy (o : option str) : bool :=
  match o with
  | Some (_ :: _) => true
  | _ => false
  end.

(** ** Dictionaries

    A [dict] keeps its keys in insertion order; assigning to an existing
    key replaces the value in place. *)
Definition dict (V : Type) := list (str * V).

Fixpoint dict_get {V} (k : str) (d : dict V) : option V :=
  match d with
  | [] => None
  | (k', v) :: d' => if str_eqb k k' then Some v else dict_get k d'
  end.

Fixpoint dict_set {V} (k : str) (v : V) (d : dict V) : dict V :=
  match d with
  | [] => [(k, v)]
  | (k', v') :: d' =>
    if str_eqb k k' then (k', v) :: d' else (k', v') :: dict_set k v d'
  end.

Definition dict_keys {V} (d : dict V) : list str := map fst d.

(** ** Statistics of one host: the inner dictionary
    [{"success": 0, "failed": 0, "errors": 0, "times": []}]. *)
Record TargetStats := mkStats {
  success : nat;
  failed : nat;
  errors : nat;
  times : list float
}.

Definition zero_stats : TargetStats := mkStats 0 0 0 [].

Definition Stats := dict TargetStats.

Definition counter_sum (d : TargetStats) : nat :=
  success d + failed d + errors d.

(** ** [perform_request] *)

(** The exceptions of [requests.exceptions], all derived from
    [RequestException]. *)
Inductive RequestException :=
| ConnectionError
| SSLError
| ProxyError
| ConnectTimeout
| ReadTimeout
| TooManyRedirects
| InvalidURL
| OtherRequestException.

(** What [requests.get(url, timeout=5)] does: it returns a response with
    a status code or raises. *)
Inductive get_result :=
| Response (status_code : Z)
| Raises (e : RequestException).

(** What the environment does during one call of [perform_request]: the
    two readings of [time.perf_counter] and the behaviour of the GET. *)
Record Call := mkCall {
  t_start : float;
  reply : get_result;
  t_end : float
}.

(** The value returned by [perform_request]: [(status_code, elapsed)], or
    [(None, None)]. *)
Inductive result :=
| Measured (status : Z) (elapsed : float)
| NoneNone.

Definition perform_request (env : str -> Call) (url : str) : result :=
  let c := env url in
  let start := t_start c in
  match reply c with
  | Response status_code =>
    let elapsed := float_sub (t_end c) start in
    Measured status_code elapsed
  | Raises _ => NoneNone
  end.

(** ** Aggregation: the body of the [as_completed] loop *)

(** [stats[host][...] += 1] and [append]: the entry of [host] is looked up
    ([None] stands for [KeyError]) and updated in place. *)
Definition update_entry (stats : Stats) (host : str)
    (f : TargetStats -> TargetStats) : option Stats :=
  match dict_get host stats with
  | None => None
  | Some d => Some (dict_set host (f d) stats)
  end.

Definition incr_success (elapsed : float) (d : TargetStats) : TargetStats :=
  mkStats (S (success d)) (failed d) (errors d) (times d ++ [elapsed]).

Definition incr_failed (d : TargetStats) : TargetStats :=
  mkStats (success d) (S (failed d)) (errors d) (times d).

Definition incr_errors (d : TargetStats) : TargetStats :=
  mkStats (success d) (failed d) (S (errors d)) (times d).

(** What one completed task does to the entry of its host. *)
Definition classify (r : result) : TargetStats -> TargetStats :=
  match r with
  | NoneNone => incr_errors
  | Measured status elapsed =>
    if ((200 <=? status) && (status <? 400))%Z then incr_success elapsed
    else if ((400 <=? status) && (status <? 600))%Z then incr_failed
    else incr_errors
  end.

Definition fold_result (stats : Stats) (host : str) (r : result)
    : option Stats :=
  update_entry stats host (classify r).

(** The loop over the completed futures, in completion order. *)
Fixpoint aggregate (stats : Stats) (completed : list (str * result))
    : option Stats :=
  match completed with
  | [] => Some stats
  | (host, r) :: rest =>
    match fold_result stats host r with
    | None => None
    | Some stats' => aggregate stats' rest
    end
  end.

(** The dictionary comprehension that prepares [stats]. *)
Definition init_stats (hosts : list str) : Stats :=
  fold_left (fun d host => dict_set host zero_stats d) hosts [].

(** ** Character classes *)

Definition in_range (lo hi c : N) : bool := ((lo <=? c) && (c <=? hi))%N.

(** [str.isspace] for one character; the class [\s] of a [str] pattern. *)
Definition is_space (c : N) : bool :=
  in_range 9 13 c || in_range 28 32 c || (c =? 133)%N || (c =? 160)%N
  || (c =? 5760)%N || in_range 8192 8202 c || (c =? 8232)%N
  || (c =? 8233)%N || (c =? 8239)%N || (c =? 8287)%N || (c =? 12288)%N.

Definition not_space (c : N) : bool := negb (is_space c).

(** The class [[A-Za-z0-9.-]]. *)
Definition host_char (c : N) : bool :=
  in_range 65 90 c || in_range 97 122 c || in_range 48 57 c
  || (c =? 46)%N || (c =? 45)%N.

(** ** Regular expressions

    The fragment of [re] that [URL_REGEX] is written in, with the
    backtracking semantics of [Pattern.match]. *)
Inductive regex :=
| Bol                                   (* ^ *)
| Eol                                   (* $ *)
| Lit (s : str)                         (* literal text *)
| Many (least : nat) (p : N -> bool)    (* [set]* and [set]+ *)
| Seq (a b : regex)
| Opt (a : regex).                      (* (?:a)? *)

Fixpoint drop_prefix (p s : str) : option str :=
  match p, s with
  | [], _ => Some s
  | a :: p', b :: s' => if (a =? b)%N then drop_prefix p' s' else None
  | _ :: _, [] => None
  end.

(** [$] matches at the end of the string and just before a newline that
    ends the string. *)
Definition at_end (s : str) : bool :=
  match s with
  | [] => true
  | [c] => (c =? 10)%N
  | _ => false
  end.

(** A greedy repetition of a character set: as many characters as
    possible first, then fewer. *)
Fixpoint many (p : N -> bool) (least pos : nat) (s : str)
    (k : nat -> str -> bool) : bool :=
  match s with
  | c :: s' =>
    if p c
    then many p (pred least) (S pos) s' k || (Nat.eqb least 0 && k pos s)
    else Nat.eqb least 0 && k pos s
  | [] => Nat.eqb least 0 && k pos s
  end.

Fixpoint rmatch (r : regex) (pos : nat) (s : str)
    (k : nat -> str -> bool) : bool :=
  match r with
  | Bol => Nat.eqb pos 0 && k pos s
  | Eol => at_end s && k pos s
  | Lit l =>
    match drop_prefix l s with
    | Some s' => k (pos + length l) s'
    | None => false
    end
  | Many least p => many p least pos s k
  | Seq a b => rmatch a pos s (fun pos' s' => rmatch b pos' s' k)
  | Opt a => rmatch a pos s k || k pos s
  end.

(** [bool(pattern.match(s))]: a match that starts at position 0. *)
Definition re_match (r : regex) (s : str) : bool :=
  rmatch r 0 s (fun _ _ => true).

(** The compiled pattern: [^], the text [https://], one or more of
    [[A-Za-z0-9.-]], optionally a [/] followed by any number of
    non-space characters, and [$]. *)
Definition URL_REGEX : regex :=
  Seq Bol
   (Seq (Lit (lit "https://"))
    (Seq (Many 1 host_char)
     (Seq (Opt (Seq (Lit (lit "/")) (Many 0 not_space)))
      Eol))).

Definition validate_host (url : str) : bool := re_match URL_REGEX url.

(** ** String helpers: [strip], [split], [join], number formatting *)

Fixpoint lstrip (s : str) : str :=
  match s with
  | c :: s' => if is_space c then lstrip s' else s
  | [] => []
  end.

Definition strip (s : str) : str := rev (lstrip (rev (lstrip s))).

(** [s.split(sep)] for a one-character separator. *)
Fixpoint split (sep : N) (s : str) : list str :=
  match s with
  | [] => [[]]
  | c :: s' =>
    if (c =? sep)%N then [] :: split sep s'
    else match split sep s' with
         | x :: xs => (c :: x) :: xs
         | [] => [[c]]
         end
  end.

Fixpoint join (sep : str) (l : list str) : str :=
  match l with
  | [] => []
  | [x] => x
  | x :: l' => x ++ sep ++ join sep l'
  end.

Definition comma : N := 44.
Definition newline : N := 10.

(** Decimal digits of a natural number, as [str(n)]. *)
Definition str_of_N (n : N) : str :=
  lit (DecimalString.NilZero.string_of_uint (N.to_uint n)).

Definition str_of_nat (n : nat) : str := str_of_N (N.of_nat n).

(** ** Format specification [.4f] *)

(** The integer nearest to [num / den], ties to even ([0 <= num], [0 < den]). *)
Definition round_half_even (num den : Z) : Z :=
  let q := (num / den)%Z in
  match (2 * (num mod den) ?= den)%Z with
  | Lt => q
  | Gt => (q + 1)%Z
  | Eq => if Z.even q then q else (q + 1)%Z
  end.

(** [m * 2^e * 10^4], correctly rounded to an integer. *)
Definition scaled4 (m : positive) (e : Z) : Z :=
  if (0 <=? e)%Z then (Zpos m * 2 ^ e * 10000)%Z
  else round_half_even (Zpos m * 10000) (2 ^ (- e)).

(** The four digits after the decimal point. *)
Definition digit (d : N) : N := (48 + d mod 10)%N.

Definition frac4 (n : N) : str :=
  [digit (n / 1000); digit (n / 100); digit (n / 10); digit n].

Definition sign_str (s : bool) : str := if s then lit "-" else [].

Definition format_4f (x : float) : str :=
  match x with
  | S754_nan => lit "nan"
  | S754_infinity s => sign_str s ++ lit "inf"
  | S754_zero s => sign_str s ++ lit "0.0000"
  | S754_finite s m e =>
    let q := Z.to_N (scaled4 m e) in
    sign_str s ++ str_of_N (q / 10000) ++ lit "." ++ frac4 (q mod 10000)
  end.

(** ** Builtins [min], [max], [sum] on lists of floats *)

(** [min] and [max] of the non-empty list [x :: l]: the first item is
    kept and replaced by each later item that is smaller (larger). *)
Definition min_of (x : float) (l : list float) : float :=
  fold_left (fun m y => if float_lt y m then y else m) l x.

Definition max_of (x : float) (l : list float) : float :=
  fold_left (fun m y => if float_lt m y then y else m) l x.

(** The builtin [sum] starts from the integer [0], so that the first
    item is added to [0.0]; the later floats are added from left to right.
    Up to CPython 3.11 this is plain addition; since CPython 3.12 the
    floats after the first are accumulated with Neumaier's compensated
    summation, and the compensation is added at the end when it is not
    zero and is finite. *)
Inductive sum_algorithm :=
| PlainSum          (* CPython <= 3.11 *)
| CompensatedSum.   (* CPython >= 3.12 *)

Definition neumaier_step (acc : float * float) (x : float) : float * float :=
  let (f_result, c) := acc in
  let t := float_add f_result x in
  let c' :=
    if float_le (float_abs x) (float_abs f_result)
    then float_add c (float_add (float_sub f_result t) x)
    else float_add c (float_add (float_sub x t) f_result) in
  (t, c').

Definition neumaier_finish (acc : float * float) : float :=
  let (f_result, c) := acc in
  if negb (float_eqb c float_zero) && is_finite c
  then float_add f_result c
  else f_result.

Definition py_sum (alg : sum_algorithm) (l : list float) : float :=
  match alg with
  | PlainSum => fold_left float_add l float_zero
  | CompensatedSum =>
    match l with
    | [] => float_zero
    | x :: l' =>
      neumaier_finish
        (fold_left neumaier_step l' (float_add float_zero x, float_zero))
    end
  end.

(** ** Effects

    What the program does to the outside world is recorded as a trace of
    events; what the outside world does to the program is read from a
    [World]. *)
Inductive event :=
| Print (text : str)                  (* print(text) *)
| OpenRead (path : str)               (* open(path, "r") *)
| Submit (host : str)                 (* pool.submit(perform_request, host) *)
| OpenWrite (path : str) (text : str) (* open(path, "w") and f.write(text) *)
| Uncaught (exc : str).               (* an exception leaves main *)

Record World := mkWorld {
  (* the lines of a file, or the text of the exception raised on reading *)
  read_lines : str -> str + list str;
  (* the environment of the task with a given submission index *)
  calls : nat -> str -> Call;
  (* which of the pending futures completes next, at each step *)
  pick : nat -> nat;
  (* the text of the exception raised on writing a file, if any *)
  write_error : str -> str -> option str;
  (* how the interpreter's builtin sum adds floats *)
  sum_alg : sum_algorithm
}.

(** A computation yields a trace and, unless it stopped early ([return]
    from [main], or an exception), a value. *)
Definition Run (A : Type) : Type := (list event * option A)%type.

Definition ret {A} (a : A) : Run A := ([], Some a).

Definition bind {A B} (m : Run A) (f : A -> Run B) : Run B :=
  match m with
  | (t, Some a) => let (t', b) := f a in (t ++ t', b)
  | (t, None) => (t, None)
  end.

Definition emit (e : event) : Run unit := ([e], Some tt).

Definition stop {A} : Run A := ([], None).

Notation "x <- m ;; k" := (bind m (fun x => k))
  (at level 61, m at next level, right associativity).
Notation "m ;;; k" := (bind m (fun _ => k))
  (at level 61, right associativity).

Definition print (text : str) : Run unit := emit (Print text).

Definition trace {A} (m : Run A) : list event := fst m.
Definition value {A} (m : Run A) : option A := snd m.

Definition is_submit (e : event) : bool :=
  match e with Submit _ => true | _ => false end.

Definition is_submit_to (host : str) (e : event) : bool :=
  match e with Submit h => str_eqb h host | _ => false end.

(** The requests issued in a trace. *)
Definition requests (t : list event) : list event := filter is_submit t.

Definition printed (t : list event) : list str :=
  flat_map (fun e => match e with Print s => [s] | _ => [] end) t.

(** ** [load_hosts_from_file]

    The result is the host list, or the message of the [ValueError]. *)
Definition nonempty (s : str) : bool :=
  match s with [] => false | _ :: _ => true end.

Definition load_hosts_from_file (w : World) (path : str)
    : Run (str + list str) :=
  emit (OpenRead path) ;;;
  match read_lines w path with
  | inr lines => ret (inr (filter nonempty (map strip lines)))
  | inl e =>
    ret (inl (lit "Ошибка чтения файла '" ++ path ++ lit "': " ++ e))
  end.

(** ** [print_stats] *)

(** [sum(times) / len(times)] *)
Definition average (alg : sum_algorithm) (l : list float) : float :=
  float_div (py_sum alg l) (float_of_nat (length l)).

(** The lines appended for one host. *)
Definition host_lines (alg : sum_algorithm) (host : str)
    (data : TargetStats) : list str :=
  [ lit "Host: " ++ host;
    lit "  Success: " ++ str_of_nat (success data);
    lit "  Failed:  " ++ str_of_nat (failed data);
    lit "  Errors:  " ++ str_of_nat (errors data) ]
  ++ match times data with
     | x :: l =>
       [ lit "  Min: " ++ format_4f (min_of x l) ++ lit " s";
         lit "  Max: " ++ format_4f (max_of x l) ++ lit " s";
         lit "  Avg: " ++ format_4f (average alg (x :: l)) ++ lit " s" ]
     | [] =>
       [ lit "  Min: -"; lit "  Max: -"; lit "  Avg: -" ]
     end
  ++ [ [] ].

Definition report_lines (alg : sum_algorithm) (stats : Stats) : list str :=
  flat_map (fun '(host, data) => host_lines alg host data) stats.

Definition print_stats (w : World) (stats : Stats)
    (output_file : option str) : Run unit :=
  let output := join [newline] (report_lines (sum_alg w) stats) in
  match output_file with
  | Some (c :: p) =>
    let path := c :: p in
    emit (OpenWrite path output) ;;;
    match write_error w path output with
    | Some e =>
      print (lit "Ошибка записи в файл '" ++ path ++ lit "': " ++ e)
    | None => ret tt
    end
  | _ => print output
  end.

(** ** [main] *)

(** The parsed command line. *)
Record Args := mkArgs {
  hosts : option str;      (* -H *)
  count : Z;               (* -C, default 1 *)
  file : option str;       (* -F *)
  output : option str      (* -O *)
}.

Definition msg_both : str :=
  lit "Ошибка: нельзя использовать одновременно -H и -F.".

Definition msg_neither : str :=
  lit "Ошибка: необходимо указать -H или -F.".

Definition msg_bad_url (h : str) : str :=
  lit "Ошибка: некорректный формат URL '" ++ h
  ++ lit "'. Ожидается https://example.com".

Definition msg_count : str :=
  lit "Ошибка: параметр count должен быть положительным числом.".

(** The acquisition of the host list: from the file, from the inline
    list, or neither. *)
Definition get_hosts (w : World) (args : Args) : Run (list str) :=
  match file args, hosts args with
  | Some (c :: p), _ =>
    r <- load_hosts_from_file w (c :: p) ;;
    match r with
    | inr hs => ret hs
    | inl e => print e ;;; stop
    end
  | _, Some (c :: s) => ret (split comma (c :: s))
  | _, _ => print msg_neither ;;; stop
  end.

(** The loop that checks the format of every URL. *)
Fixpoint check_hosts (hs : list str) : Run unit :=
  match hs with
  | [] => ret tt
  | h :: rest =>
    if validate_host h then check_hosts rest
    else print (msg_bad_url h) ;;; stop
  end.

(** One task per host and repetition, in submission order. *)
Definition tasks (hs : list str) (n : Z) : list str :=
  flat_map (fun host => repeat host (Z.to_nat n)) hs.

(** The dictionary [futures]: each future, named by its submission index,
    with its host. *)
Definition submit_all (hs : list str) (n : Z) : Run (list (nat * str)) :=
  let ts := tasks hs n in
  (map Submit ts, Some (combine (seq 0 (length ts)) ts)).

(** [as_completed]: at each step one of the pending futures completes. *)
Fixpoint as_completed {A} (choose : nat -> nat) (step fuel : nat)
    (pending : list A) : list A :=
  match fuel, pending with
  | S fuel', x :: _ =>
    let i := choose step mod length pending in
    nth i pending x
    :: as_completed choose (S step) fuel'
         (firstn i pending ++ skipn (S i) pending)
  | _, _ => []
  end.

(** The completed futures in completion order, each with its host and the
    value of [future.result()]. *)
Definition completions (w : World) (futures : list (nat * str))
    : list (str * result) :=
  map (fun '(i, host) => (host, perform_request (calls w i) host))
      (as_completed (pick w) 0 (length futures) futures).

(** [main]; on normal termination the value is the final [stats]. *)
Definition main (w : World) (args : Args) : Run Stats :=
  if truthy (hosts args) && truthy (file args) then
    print msg_both ;;; stop
  else
    hs <- get_hosts w args ;;
    check_hosts hs ;;;
    if (count args <? 1)%Z then
      print msg_count ;;; stop
    else
      let stats := init_stats hs in
      futures <- submit_all hs (count args) ;;
      match aggregate stats (completions w futures) with
      | None => emit (Uncaught (lit "KeyError")) ;;; stop
      | Some stats' =>
        print_stats w stats' (output args) ;;;
        ret stats'
      end.

(** ** Notions used in the statements *)

(** What a regular expression matches: from position [pos] with [s] left
    to read, it can stop at position [pos'] with [s'] left. *)
Fixpoint consumes (r : regex) (pos : nat) (s : str) (pos' : nat) (s' : str)
    : Prop :=
  match r with
  | Bol => pos = 0 /\ pos' = pos /\ s' = s
  | Eol => at_end s = true /\ pos' = pos /\ s' = s
  | Lit l => s = l ++ s' /\ pos' = pos + length l
  | Many least p =>
    exists a, s = a ++ s' /\ forallb p a = true /\ least <= length a
              /\ pos' = pos + length a
  | Seq a b =>
    exists pos1 s1, consumes a pos s pos1 s1 /\ consumes b pos1 s1 pos' s'
  | Opt a => consumes a pos s pos' s' \/ (pos' = pos /\ s' = s)
  end.

(** The URL format read off the pattern: [https://], a non-empty host of
    letters, digits, dots and hyphens, optionally a path that starts with
    [/] and has no white space; a final newline is tolerated by [$]. *)
Definition url_format (url : str) : Prop :=
  exists host path tail,
    url = lit "https://" ++ host ++ path ++ tail
    /\ host <> [] /\ forallb host_char host = true
    /\ (path = [] \/ exists p, path = 47%N :: p /\ forallb not_space p = true)
    /\ (tail = [] \/ tail = [newline]).

(** The host list of a run that passes every check of [main], if it does. *)
Definition accepted_hosts (w : World) (args : Args) : option (list str) :=
  if truthy (hosts args) && truthy (file args) then None
  else match value (get_hosts w args) with
       | Some hs =>
         if forallb validate_host hs && (1 <=? count args)%Z then Some hs
         else None
       | None => None
       end.

(** The results folded for [host] in a sequence of completed tasks. *)
Definition for_host (host : str) (l : list (str * result)) : list result :=
  map snd (filter (fun x => str_eqb (fst x) host) l).

(** The effect of a sequence of results on one entry. *)
Definition apply_all (rs : list result) (d : TargetStats) : TargetStats :=
  fold_left (fun d r => classify r d) rs d.

Definition is_success (r : result) : bool :=
  match r with
  | Measured status _ => ((200 <=? status) && (status <? 400))%Z
  | NoneNone => false
  end.

Definition is_failed (r : result) : bool :=
  match r with
  | Measured status _ => ((400 <=? status) && (status <? 600))%Z
  | NoneNone => false
  end.

Definition is_error (r : result) : bool :=
  negb (is_success r) && negb (is_failed r).

(** The elapsed times of the successful results, in order. *)
Definition latencies (rs : list result) : list float :=
  flat_map (fun r => match r with
                     | Measured _ elapsed => if is_success r then [elapsed] else []
                     | NoneNone => []
                     end) rs.

(** The sum of the three counters over all entries. *)
Definition total_count (stats : Stats) : nat :=
  list_sum (map (fun e => counter_sum (snd e)) stats).

(** The results of the submitted tasks, in submission order. *)
Definition outcomes (w : World) (futures : list (nat * str))
    : list (str * result) :=
  map (fun '(i, host) => (host, perform_request (calls w i) host)) futures.

Definition futures_of (hs : list str) (n : Z) : list (nat * str) :=
  combine (seq 0 (length (tasks hs n))) (tasks hs n).

(** The first four lines of the block of one host. *)
Definition header_lines (host : str) (data : TargetStats) : list str :=
  [ lit "Host: " ++ host;
    lit "  Success: " ++ str_of_nat (success data);
    lit "  Failed:  " ++ str_of_nat (failed data);
    lit "  Errors:  " ++ str_of_nat (errors data) ].

Definition is_digit (c : N) : bool := in_range 48 57 c.

(** The diagnostics of [main] and of [load_hosts_from_file] all start
    with the word for "error". *)
Definition error_message (m : str) : Prop :=
  exists rest, m = lit "Ошибка" ++ rest.

(** Two entries agree: the same counters and the same latencies up to
    their order. *)
Definition same_stats (d1 d2 : TargetStats) : Prop :=
  success d1 = success d2 /\ failed d1 = failed d2
  /\ errors d1 = errors d2 /\ Permutation (times d1) (times d2).



(** ** A sample run

    Three inline targets, one of them twice, two requests each; the tasks
    with an even index answer 200, task 1 answers 503, the others time
    out. *)
Definition sample_world : World :=
  mkWorld (fun _ => inl (lit "No such file or directory"))
          (fun i _ =>
             mkCall (float_scaled 1 0)
                    (if Nat.even i then Response 200
                     else if Nat.eqb i 1 then Response 503
                     else Raises ReadTimeout)
                    (float_scaled (Z.of_nat (3 + i)) (-1)))
          (fun step => 2 * step + 1)
          (fun _ _ => None)
          PlainSum.

Definition host_a : str := lit "https://a.com".
Definition host_b : str := lit "https://b.org/x".

Definition sample_args : Args :=
  mkArgs (Some (lit "https://a.com,https://b.org/x,https://a.com")) 2
         None None.

(** Command lines that are refused: both input modes, neither, a target
    with the wrong scheme among valid ones, a repeat count of zero. *)
Definition args_both : Args :=
  mkArgs (Some (lit "https://a.com")) 1 (Some (lit "hosts.txt")) None.

Definition args_neither : Args := mkArgs None 1 None None.

Definition args_bad_url : Args :=
  mkArgs (Some (lit "https://a.com,http://example.com,https://b.org/x")) 3
         None None.

Definition args_zero_count : Args :=
  mkArgs (Some (lit "https://a.com,https://b.org/x")) 0 None None.

(** ** Further notions and sample worlds *)



(** A world whose host file has three lines, one of them blank, and in
    which no file can be written. *)
Definition file_world : World :=
  mkWorld (fun _ => inr [lit "https://a.com" ++ [newline];
                         lit "   " ++ [newline];
                         lit "  https://b.org/x  " ++ [newline]])
          (calls sample_world) (pick sample_world)
          (fun _ _ => Some (lit "Permission denied"))
          PlainSum.

(** A world whose host file has only blank lines. *)
Definition blank_file_world : World :=
  mkWorld (fun _ => inr [[newline]; lit "  " ++ [newline]])
          (calls sample_world) (pick sample_world) (fun _ _ => None)
          CompensatedSum.

(** A world in which every GET times out. *)
Definition offline_world : World :=
  mkWorld (read_lines sample_world)
          (fun _ _ => mkCall (float_scaled 1 0) (Raises ConnectTimeout)
                             (float_scaled 6 0))
          (pick sample_world) (fun _ _ => None) CompensatedSum.

(** The sample world with another schedule. *)
Definition sample_world_fifo : World :=
  mkWorld (read_lines sample_world) (calls sample_world) (fun _ => 0)
          (write_error sample_world) (sum_alg sample_world).

Definition args_file : Args :=
  mkArgs None 1 (Some (lit "hosts.txt")) None.

Definition args_file_output : Args :=
  mkArgs None 1 (Some (lit "hosts.txt")) (Some (lit "report.txt")).

Definition args_output : Args :=
  mkArgs (Some (lit "https://a.com")) 1 None (Some (lit "report.txt")).

(** An event other than an exception that leaves [main]. *)
Definition no_exception (e : event) : bool :=
  match e with Uncaught _ => false | _ => true end.

(** ** The mean as the specification words it

    The arithmetic mean of the exact values of finite latencies, rounded
    to four decimals (to nearest, ties to even) and written like [.4f]
    writes a non-negative number. *)
Definition exponent_of (x : float) : Z :=
  match x with S754_finite _ _ e => e | _ => 0%Z end.

(** The value of [x] times [2^k], for [k] at least the opposite of the
    exponent of [x]. *)
Definition scaled_value (k : Z) (x : float) : Z :=
  match x with
  | S754_finite s m e => cond_Zopp s (Zpos m * 2 ^ (e + k))%Z
  | _ => 0%Z
  end.

Definition spec_mean_4f (l : list float) : str :=
  let k := fold_left (fun k x => Z.max k (- exponent_of x)) l 0%Z in
  let total := fold_left (fun t x => (t + scaled_value k x)%Z) l 0%Z in
  let q := Z.to_N (round_half_even (total * 10000)
                     (Z.of_nat (length l) * 2 ^ k)) in
  str_of_N (q / 10000) ++ lit "." ++ frac4 (q mod 10000).

(** Worlds in which every request is answered 200 and the tasks complete
    in submission order, task [i] after the [i]-th of the given
    latencies. *)
Definition latency_world (alg : sum_algorithm) (lats : list float) : World :=
  mkWorld (fun _ => inl (lit "No such file or directory"))
          (fun i _ => mkCall float_zero (Response 200) (nth i lats float_zero))
          (fun _ => 0) (fun _ _ => None) alg.

(** 0.677512, 1.155306, 0.053054 and 0.3735280000000001 *)
Definition four_latencies : list float :=
  [ S754_finite false 6102485581478079 (-53);
    S754_finite false 5203035671098898 (-52);
    S754_finite false 7645887188176457 (-57);
    S754_finite false 6728882246449788 (-54) ].

(** The two floats next to 0.10005, one on each side. *)
Definition two_latencies : list float :=
  [ S754_finite false 7209362283494689 (-56);
    S754_finite false 7209362283494690 (-56) ].

Definition args_four : Args := mkArgs (Some host_a) 4 None None.
Definition args_two : Args := mkArgs (Some host_a) 2 None None.


(** * Properties *)

(** ** Dictionaries *)

Lemma str_eqb_refl (a : str) : str_eqb a a = true.
Proof. unfold str_eqb. destruct (str_eq_dec a a); congruence. Qed.

Lemma str_eqb_eq (a b : str) : str_eqb a b = true <-> a = b.
Proof. unfold str_eqb. destruct (str_eq_dec a b); split; congruence. Qed.

Lemma str_eqb_neq (a b : str) : str_eqb a b = false <-> a <> b.
Proof. unfold str_eqb. destruct (str_eq_dec a b); split; congruence. Qed.

Section Dict.
Variable V : Type.
Implicit Types (d : dict V) (k h : str) (v : V).

Lemma dict_get_set_same k v d : dict_get k (dict_set k v d) = Some v.
Proof.
  induction d as [|[k' v'] d IH]; simpl.
  - now rewrite str_eqb_refl.
  - destruct (str_eqb k k') eqn:E; simpl; rewrite E; auto.
Qed.

Lemma dict_get_set_other k h v d :
  h <> k -> dict_get h (dict_set k v d) = dict_get h d.
Proof.
  intros Hn. induction d as [|[k' v'] d IH]; simpl.
  - apply str_eqb_neq in Hn. now rewrite Hn.
  - destruct (str_eqb k k') eqn:E; simpl.
    + apply str_eqb_eq in E. subst k'.
      apply str_eqb_neq in Hn. now rewrite Hn.
    + now rewrite IH.
Qed.

Lemma dict_get_In k d : dict_get k d <> None <-> In k (dict_keys d).
Proof.
  induction d as [|[k' v'] d IH]; simpl.
  - tauto.
  - destruct (str_eqb k k') eqn:E.
    + apply str_eqb_eq in E. split; [auto | discriminate].
    + apply str_eqb_neq in E. rewrite IH. intuition congruence.
Qed.

Lemma dict_keys_set_present k v d :
  In k (dict_keys d) -> dict_keys (dict_set k v d) = dict_keys d.
Proof.
  induction d as [|[k' v'] d IH]; simpl; [tauto|].
  intros H. destruct (str_eqb k k') eqn:E; simpl; auto.
  f_equal. apply IH. apply str_eqb_neq in E. intuition congruence.
Qed.

Lemma dict_keys_set_absent k v d :
  ~ In k (dict_keys d) -> dict_keys (dict_set k v d) = dict_keys d ++ [k].
Proof.
  induction d as [|[k' v'] d IH]; simpl; auto.
  intros H. destruct (str_eqb k k') eqn:E; simpl.
  - apply str_eqb_eq in E. intuition congruence.
  - f_equal. apply IH. tauto.
Qed.
End Dict.

(** ** One entry under a sequence of results *)

Lemma counter_sum_classify (r : result) (d : TargetStats) :
  counter_sum (classify r d) = S (counter_sum d).
Proof.
  unfold counter_sum. destruct r as [st el|]; simpl; [|lia].
  destruct ((200 <=? st) && (st <? 400))%Z; simpl; [lia|].
  destruct ((400 <=? st) && (st <? 600))%Z; simpl; lia.
Qed.

Lemma classify_cases (r : result) (d : TargetStats) :
  classify r d =
  mkStats (success d + (if is_success r then 1 else 0))
          (failed d + (if is_failed r then 1 else 0))
          (errors d + (if is_error r then 1 else 0))
          (times d ++ latencies [r]).
Proof.
  destruct d as [s f e t]. unfold is_error, latencies.
  destruct r as [st el|]; simpl.
  - destruct ((200 <=? st) && (st <? 400))%Z eqn:E1; simpl.
    + assert (E2 : ((400 <=? st) && (st <? 600))%Z = false) by lia.
      rewrite E2. simpl. unfold incr_success. simpl.
      f_equal; lia.
    + destruct ((400 <=? st) && (st <? 600))%Z eqn:E2; simpl.
      * unfold incr_failed. simpl. rewrite app_nil_r. f_equal; lia.
      * unfold incr_errors. simpl. rewrite app_nil_r. f_equal; lia.
  - unfold incr_errors. simpl. rewrite app_nil_r. f_equal; lia.
Qed.

Lemma latencies_app (a b : list result) :
  latencies (a ++ b) = latencies a ++ latencies b.
Proof. unfold latencies. apply flat_map_app. Qed.

Lemma apply_all_closed (rs : list result) (d : TargetStats) :
  apply_all rs d =
  mkStats (success d + length (filter is_success rs))
          (failed d + length (filter is_failed rs))
          (errors d + length (filter is_error rs))
          (times d ++ latencies rs).
Proof.
  revert d. induction rs as [|r rs IH]; intros d.
  - destruct d. simpl. rewrite app_nil_r. f_equal; lia.
  - change (apply_all (r :: rs) d) with (apply_all rs (classify r d)).
    rewrite IH, classify_cases. cbn [success failed errors times].
    replace (latencies (r :: rs)) with (latencies [r] ++ latencies rs)
      by (rewrite <- latencies_app; reflexivity).
    simpl filter. f_equal.
    + destruct (is_success r); simpl length; lia.
    + destruct (is_failed r); simpl length; lia.
    + destruct (is_error r); simpl length; lia.
    + now rewrite app_assoc.
Qed.

Lemma latencies_length (rs : list result) :
  length (latencies rs) = length (filter is_success rs).
Proof.
  induction rs as [|r rs IH]; simpl; auto.
  rewrite length_app, IH.
  destruct r as [st el|]; simpl; auto.
  destruct ((200 <=? st) && (st <? 400))%Z; simpl; auto.
Qed.

Lemma class_partition (rs : list result) :
  length (filter is_success rs) + length (filter is_failed rs)
  + length (filter is_error rs) = length rs.
Proof.
  induction rs as [|r rs IH]; simpl; auto.
  unfold is_error at 1.
  destruct r as [st el|]; simpl; [|lia].
  destruct ((200 <=? st) && (st <? 400))%Z eqn:E1; simpl.
  - assert (E2 : ((400 <=? st) && (st <? 600))%Z = false) by lia.
    rewrite E2. simpl. lia.
  - destruct ((400 <=? st) && (st <? 600))%Z; simpl; lia.
Qed.

(** ** The aggregation loop *)

Lemma fold_result_inv (stats stats' : Stats) (host : str) (r : result) :
  fold_result stats host r = Some stats' ->
  exists d, dict_get host stats = Some d
            /\ stats' = dict_set host (classify r d) stats.
Proof.
  unfold fold_result, update_entry.
  destruct (dict_get host stats) as [d|]; [|discriminate].
  intros [= <-]. eauto.
Qed.

Lemma aggregate_app (s : Stats) (p q : list (str * result)) :
  aggregate s (p ++ q) =
  match aggregate s p with
  | Some s1 => aggregate s1 q
  | None => None
  end.
Proof.
  revert s. induction p as [|[host r] p IH]; intros s; simpl; auto.
  destruct (fold_result s host r); auto.
Qed.

Lemma aggregate_keys (p : list (str * result)) (s s' : Stats) :
  aggregate s p = Some s' -> dict_keys s' = dict_keys s.
Proof.
  revert s. induction p as [|[host r] p IH]; intros s; simpl.
  - now intros [= <-].
  - destruct (fold_result s host r) as [s1|] eqn:E; [|discriminate].
    intros H. rewrite (IH _ H).
    apply fold_result_inv in E as (d & Hd & ->).
    apply dict_keys_set_present, dict_get_In. congruence.
Qed.

Lemma aggregate_get (h : str) (p : list (str * result)) (s s' : Stats) :
  aggregate s p = Some s' ->
  dict_get h s' = option_map (apply_all (for_host h p)) (dict_get h s).
Proof.
  revert s. induction p as [|[host r] p IH]; intros s; simpl.
  - intros [= <-]. unfold for_host. simpl. now destruct (dict_get h s).
  - destruct (fold_result s host r) as [s1|] eqn:E; [|discriminate].
    intros H. rewrite (IH _ H).
    apply fold_result_inv in E as (d & Hd & ->).
    unfold for_host. simpl.
    destruct (str_eqb host h) eqn:Eh.
    + apply str_eqb_eq in Eh. subst h.
      rewrite dict_get_set_same, Hd. reflexivity.
    + apply str_eqb_neq in Eh.
      rewrite dict_get_set_other by congruence. reflexivity.
Qed.

Lemma aggregate_some (p : list (str * result)) (s : Stats) :
  (forall x, In x p -> In (fst x) (dict_keys s)) ->
  exists s', aggregate s p = Some s'.
Proof.
  revert s. induction p as [|[host r] p IH]; intros s Hin; simpl.
  - eauto.
  - assert (Hk : In host (dict_keys s)) by (apply (Hin (host, r)); now left).
    unfold fold_result, update_entry.
    destruct (dict_get host s) as [d|] eqn:Hd.
    + apply IH. intros x Hx.
      rewrite dict_keys_set_present by exact Hk.
      apply Hin. now right.
    + apply dict_get_In in Hk. congruence.
Qed.

Lemma total_count_set (k : str) (d d' : TargetStats) (s : Stats) :
  dict_get k s = Some d ->
  total_count (dict_set k d' s) + counter_sum d
  = total_count s + counter_sum d'.
Proof.
  unfold total_count.
  induction s as [|[k' v'] s IH]; simpl; [discriminate|].
  destruct (str_eqb k k') eqn:E; simpl.
  - intros [= ->]. lia.
  - intros H. specialize (IH H). lia.
Qed.

Lemma aggregate_total (p : list (str * result)) (s s' : Stats) :
  aggregate s p = Some s' -> total_count s' = total_count s + length p.
Proof.
  revert s. induction p as [|[host r] p IH]; intros s; simpl.
  - intros [= <-]. lia.
  - destruct (fold_result s host r) as [s1|] eqn:E; [|discriminate].
    intros H. rewrite (IH _ H).
    apply fold_result_inv in E as (d & Hd & ->).
    pose proof (total_count_set host (classify r d) s Hd) as T.
    rewrite counter_sum_classify in T. lia.
Qed.

(** ** The initial statistics *)

Lemma init_stats_from (hs : list str) (d0 : Stats) :
  let d := fold_left (fun d host => dict_set host zero_stats d) hs d0 in
  (NoDup (dict_keys d0) -> NoDup (dict_keys d))
  /\ (forall h, In h (dict_keys d) <-> In h (dict_keys d0) \/ In h hs)
  /\ ((forall h v, dict_get h d0 = Some v -> v = zero_stats) ->
      forall h v, dict_get h d = Some v -> v = zero_stats).
Proof.
  revert d0. induction hs as [|a hs IH]; intros d0; simpl.
  - repeat split; auto; tauto.
  - destruct (IH (dict_set a zero_stats d0)) as (I1 & I2 & I3).
    assert (K : forall h, In h (dict_keys (dict_set a zero_stats d0))
                          <-> In h (dict_keys d0) \/ h = a).
    { intros h. destruct (in_dec str_eq_dec a (dict_keys d0)) as [Hi|Hn].
      - rewrite dict_keys_set_present by exact Hi.
        split; [tauto|]. intros [H| ->]; auto.
      - rewrite dict_keys_set_absent by exact Hn.
        rewrite in_app_iff. simpl. intuition congruence. }
    repeat split.
    + intros Hnd. apply I1.
      destruct (in_dec str_eq_dec a (dict_keys d0)) as [Hi|Hn].
      * now rewrite dict_keys_set_present.
      * rewrite dict_keys_set_absent by exact Hn.
        apply NoDup_app; [exact Hnd | repeat constructor; simpl; tauto|].
        simpl. intros x Hx [<-|[]]. contradiction.
    + intros H. apply I2 in H. rewrite K in H. intuition congruence.
    + intros H. apply I2. rewrite K. intuition congruence.
    + intros Hz. apply I3. intros h v.
      destruct (str_eq_dec h a) as [->|Hn].
      * rewrite dict_get_set_same. congruence.
      * rewrite dict_get_set_other by exact Hn. apply Hz.
Qed.

Lemma init_stats_keys (hs : list str) (h : str) :
  In h (dict_keys (init_stats hs)) <-> In h hs.
Proof.
  destruct (init_stats_from hs []) as (_ & I2 & _).
  unfold init_stats. rewrite I2. simpl. tauto.
Qed.

Lemma init_stats_NoDup (hs : list str) : NoDup (dict_keys (init_stats hs)).
Proof.
  destruct (init_stats_from hs []) as (I1 & _ & _).
  apply I1. constructor.
Qed.

Lemma init_stats_keys_from (hs : list str) :
  forall d0 : Stats,
    NoDup (dict_keys d0 ++ hs) ->
    dict_keys (fold_left (fun d host => dict_set host zero_stats d) hs d0)
    = dict_keys d0 ++ hs.
Proof.
  induction hs as [|a hs IH]; intros d0 Hnd; simpl.
  - now rewrite app_nil_r.
  - assert (Ha : ~ In a (dict_keys d0)).
    { apply NoDup_remove_2 in Hnd. rewrite in_app_iff in Hnd. tauto. }
    pose proof (@dict_keys_set_absent _ a zero_stats d0 Ha) as Ek.
    rewrite IH; rewrite Ek, <- app_assoc; auto.
Qed.

(** Without repeated targets the entries are the targets, in input
    order. *)
Lemma init_stats_keys_distinct (hs : list str) :
  NoDup hs -> dict_keys (init_stats hs) = hs.
Proof. intros H. apply (init_stats_keys_from hs []). exact H. Qed.

Lemma init_stats_get (hs : list str) (h : str) :
  In h hs -> dict_get h (init_stats hs) = Some zero_stats.
Proof.
  intros Hin. destruct (init_stats_from hs []) as (_ & _ & I3).
  destruct (dict_get h (init_stats hs)) as [v|] eqn:E.
  - f_equal. apply (I3 ltac:(simpl; discriminate) h v E).
  - apply init_stats_keys, dict_get_In in Hin. congruence.
Qed.

Lemma init_stats_get_zero (hs : list str) (h : str) (v : TargetStats) :
  dict_get h (init_stats hs) = Some v -> v = zero_stats.
Proof.
  destruct (init_stats_from hs []) as (_ & _ & I3).
  apply I3. simpl. discriminate.
Qed.

Lemma total_count_zero (s : Stats) :
  NoDup (dict_keys s) ->
  (forall h v, dict_get h s = Some v -> v = zero_stats) ->
  total_count s = 0.
Proof.
  unfold total_count.
  induction s as [|[k v] s IH]; simpl; auto.
  intros Hnd Hz. inversion Hnd as [|? ? Hk Hnd']; subst.
  rewrite (Hz k v) by now rewrite str_eqb_refl.
  simpl. apply IH; auto.
  intros h v' Hg. apply (Hz h).
  destruct (str_eqb h k) eqn:E; auto.
  apply str_eqb_eq in E. subst h.
  exfalso. apply Hk, dict_get_In. congruence.
Qed.

Lemma init_stats_total (hs : list str) : total_count (init_stats hs) = 0.
Proof.
  apply total_count_zero;
    [apply init_stats_NoDup | apply init_stats_get_zero].
Qed.

(** ** Completion order *)

Lemma Permutation_filter {A} (f : A -> bool) (l l' : list A) :
  Permutation l l' -> Permutation (filter f l) (filter f l').
Proof.
  induction 1 as [|x l l' _ IH|x y l|l l' l'' _ IH1 _ IH2]; simpl.
  - constructor.
  - destruct (f x); auto.
  - destruct (f x), (f y); auto. constructor.
  - now transitivity (filter f l').
Qed.

Lemma remove_nth_perm {A} (i : nat) (l : list A) (x : A) :
  i < length l ->
  Permutation (nth i l x :: firstn i l ++ skipn (S i) l) l.
Proof.
  intros Hi.
  pose proof (firstn_skipn_middle i l (nth_error_nth' l x Hi)) as E.
  eapply Permutation_trans; [apply Permutation_middle|].
  now rewrite E.
Qed.

Lemma remove_nth_length {A} (i : nat) (l : list A) :
  i < length l -> length (firstn i l ++ skipn (S i) l) = pred (length l).
Proof.
  intros Hi. rewrite length_app, length_firstn, length_skipn. lia.
Qed.

Lemma as_completed_perm {A} (choose : nat -> nat) (l : list A) :
  forall step, Permutation (as_completed choose step (length l) l) l.
Proof.
  remember (length l) as n eqn:Hn. revert l Hn.
  induction n as [|n IH]; intros l Hn step.
  - destruct l; [constructor | discriminate].
  - destruct l as [|x l]; [discriminate|].
    cbn [as_completed].
    set (i := choose step mod length (x :: l)).
    assert (Hi : i < length (x :: l))
      by (apply Nat.mod_upper_bound; simpl; lia).
    eapply Permutation_trans;
      [|exact (@remove_nth_perm _ i (x :: l) x Hi)].
    constructor. apply IH.
    rewrite (@remove_nth_length _ i (x :: l) Hi). simpl in *. lia.
Qed.

Lemma completions_perm (w : World) (fs : list (nat * str)) :
  Permutation (completions w fs) (outcomes w fs).
Proof.
  unfold completions, outcomes. apply Permutation_map, as_completed_perm.
Qed.

Lemma as_completed_ext {A} (c1 c2 : nat -> nat) (fuel : nat) :
  forall step (l : list A),
    (forall k, step <= k -> c1 k = c2 k) ->
    as_completed c1 step fuel l = as_completed c2 step fuel l.
Proof.
  induction fuel as [|fuel IH]; intros step l H; [reflexivity|].
  destruct l as [|x l]; [reflexivity|]. cbn [as_completed].
  rewrite (H step (le_n _)). f_equal. apply IH.
  intros k Hk. apply H. lia.
Qed.

(** Every completion order is the order of some schedule. *)
Lemma as_completed_any_order {A} (l' : list A) :
  forall (l : list A) step,
    Permutation l' l ->
    exists choose, as_completed choose step (length l) l = l'.
Proof.
  induction l' as [|x l' IH]; intros l step Hp.
  - apply Permutation_nil in Hp. subst l. now exists (fun _ => 0).
  - assert (Hin : In x l) by (apply (Permutation_in _ Hp); now left).
    apply in_split in Hin as (l1 & l2 & ->).
    apply Permutation_cons_app_inv in Hp.
    destruct (IH (l1 ++ l2) (S step) Hp) as [c Hc].
    exists (fun k => if Nat.eqb k step then length l1 else c k).
    assert (Hlen : length (l1 ++ x :: l2) = S (length (l1 ++ l2)))
      by (rewrite !length_app; simpl; lia).
    rewrite Hlen.
    assert (Hi : length l1 < length (l1 ++ x :: l2))
      by (rewrite length_app; simpl; lia).
    destruct (l1 ++ x :: l2) as [|y r] eqn:E; [simpl in Hi; lia|].
    cbn [as_completed]. rewrite Nat.eqb_refl, (Nat.mod_small _ _ Hi).
    rewrite <- E. rewrite nth_middle.
    rewrite firstn_app, firstn_all, Nat.sub_diag, app_nil_r.
    replace (skipn (S (length l1)) (l1 ++ x :: l2)) with l2.
    + f_equal. rewrite <- Hc. apply as_completed_ext.
      intros k Hk. destruct (Nat.eqb_spec k step); [lia | reflexivity].
    + rewrite skipn_app, skipn_all2 by lia.
      replace (S (length l1) - length l1) with 1 by lia. reflexivity.
Qed.

Lemma for_host_perm (h : str) (p q : list (str * result)) :
  Permutation p q -> Permutation (for_host h p) (for_host h q).
Proof.
  intros H. unfold for_host. now apply Permutation_map, Permutation_filter.
Qed.

(** ** Tasks and futures *)

Lemma tasks_length (hs : list str) (n : Z) :
  length (tasks hs n) = length hs * Z.to_nat n.
Proof.
  unfold tasks. induction hs as [|h hs IH]; simpl; auto.
  now rewrite length_app, repeat_length, IH.
Qed.

Lemma tasks_count_occ (hs : list str) (n : Z) (h : str) :
  count_occ str_eq_dec (tasks hs n) h
  = count_occ str_eq_dec hs h * Z.to_nat n.
Proof.
  unfold tasks. induction hs as [|a hs IH]; simpl; auto.
  rewrite count_occ_app, IH.
  destruct (str_eq_dec a h) as [->|Hn].
  - rewrite count_occ_repeat_eq by reflexivity. simpl. lia.
  - rewrite count_occ_repeat_neq by congruence. lia.
Qed.

Lemma tasks_In (hs : list str) (n : Z) (h : str) :
  In h (tasks hs n) -> In h hs.
Proof.
  unfold tasks. rewrite in_flat_map. intros (a & Ha & Hr).
  apply repeat_spec in Hr. now subst.
Qed.

Lemma futures_hosts (hs : list str) (n : Z) :
  map snd (futures_of hs n) = tasks hs n.
Proof.
  unfold futures_of.
  assert (G : forall (l : list str) k, map snd (combine (seq k (length l)) l) = l).
  { induction l as [|a l IH]; intros k; simpl; auto. now rewrite IH. }
  apply G.
Qed.

Lemma outcomes_hosts (w : World) (fs : list (nat * str)) :
  map fst (outcomes w fs) = map snd fs.
Proof.
  unfold outcomes. rewrite map_map. apply map_ext. now intros [i h].
Qed.

Lemma for_host_length (h : str) (l : list (str * result)) :
  length (for_host h l) = count_occ str_eq_dec (map fst l) h.
Proof.
  unfold for_host. rewrite length_map.
  induction l as [|[a r] l IH]; simpl; auto.
  destruct (str_eq_dec a h) as [->|Hn].
  - rewrite str_eqb_refl. simpl. now rewrite IH.
  - apply str_eqb_neq in Hn. now rewrite Hn.
Qed.

Lemma submitted_count (h : str) (l : list str) :
  length (filter (is_submit_to h) (map Submit l)) = count_occ str_eq_dec l h.
Proof.
  induction l as [|a l IH]; simpl; auto.
  destruct (str_eq_dec a h) as [->|Hn].
  - rewrite str_eqb_refl. simpl. now rewrite IH.
  - apply str_eqb_neq in Hn. now rewrite Hn.
Qed.

(** ** The control flow of [main] *)

Lemma check_hosts_ok (hs : list str) :
  forallb validate_host hs = true -> check_hosts hs = ([], Some tt).
Proof.
  induction hs as [|h hs IH]; simpl; auto.
  intros H. apply andb_prop in H as [H1 H2]. rewrite H1. auto.
Qed.

Lemma check_hosts_bad (pre post : list str) (bad : str) :
  forallb validate_host pre = true -> validate_host bad = false ->
  check_hosts (pre ++ bad :: post) = ([Print (msg_bad_url bad)], None).
Proof.
  intros Hpre Hbad. induction pre as [|h pre IH]; simpl.
  - now rewrite Hbad.
  - simpl in Hpre. apply andb_prop in Hpre as [H1 H2]. rewrite H1. auto.
Qed.

Lemma first_invalid (hs : list str) :
  forallb validate_host hs = false ->
  exists pre bad post, hs = pre ++ bad :: post
    /\ forallb validate_host pre = true /\ validate_host bad = false.
Proof.
  induction hs as [|h hs IH]; simpl; [discriminate|].
  destruct (validate_host h) eqn:E; simpl.
  - intros H. destruct (IH H) as (pre & bad & post & -> & Hp & Hb).
    exists (h :: pre), bad, post. simpl. rewrite E. auto.
  - intros _. exists [], h, hs. auto.
Qed.

Lemma print_stats_value (w : World) (s : Stats) (o : option str) :
  value (print_stats w s o) = Some tt.
Proof.
  unfold print_stats. destruct o as [[|c p]|]; simpl; auto.
  destruct (write_error w (c :: p) _); reflexivity.
Qed.

Lemma print_stats_requests (w : World) (s : Stats) (o : option str) :
  forall h, filter (is_submit_to h) (trace (print_stats w s o)) = [].
Proof.
  intros h. unfold print_stats. destruct o as [[|c p]|]; simpl; auto.
  destruct (write_error w (c :: p) _); reflexivity.
Qed.

Lemma accepted_hosts_inv (w : World) (args : Args) (hs : list str) :
  accepted_hosts w args = Some hs ->
  truthy (hosts args) && truthy (file args) = false
  /\ value (get_hosts w args) = Some hs
  /\ forallb validate_host hs = true
  /\ (1 <= count args)%Z.
Proof.
  unfold accepted_hosts.
  destruct (truthy (hosts args) && truthy (file args)); [discriminate|].
  destruct (value (get_hosts w args)) as [hs'|]; [|discriminate].
  destruct (forallb validate_host hs') eqn:E1; [|discriminate].
  destruct (1 <=? count args)%Z eqn:E2; [|discriminate].
  intros [= <-]. repeat split; auto. lia.
Qed.

Lemma aggregate_run (w : World) (hs : list str) (n : Z)
    (p q : list (str * result)) :
  completions w (futures_of hs n) = p ++ q ->
  exists s, aggregate (init_stats hs) p = Some s.
Proof.
  intros Hpq. apply aggregate_some. intros x Hx.
  apply init_stats_keys, (tasks_In hs n).
  rewrite <- futures_hosts, <- (outcomes_hosts w).
  apply in_map.
  apply (Permutation_in _ (completions_perm w (futures_of hs n))).
  rewrite Hpq. apply in_or_app. now left.
Qed.

Lemma main_run (w : World) (args : Args) (hs : list str) :
  accepted_hosts w args = Some hs ->
  exists final,
    aggregate (init_stats hs) (completions w (futures_of hs (count args)))
    = Some final
    /\ main w args
       = (trace (get_hosts w args) ++ map Submit (tasks hs (count args))
          ++ trace (print_stats w final (output args)), Some final).
Proof.
  intros Hacc. apply accepted_hosts_inv in Hacc as (Hb & Hg & Hv & Hc).
  destruct (aggregate_run w hs (count args)
              (completions w (futures_of hs (count args))) []
              (eq_sym (app_nil_r _))) as [final Hf].
  exists final. split; [exact Hf|].
  unfold main. rewrite Hb.
  destruct (get_hosts w args) as [t [hs'|]] eqn:Eg; simpl in Hg;
    [|discriminate].
  injection Hg as ->. simpl.
  rewrite (check_hosts_ok hs Hv). simpl.
  assert (Hlt : (count args <? 1)%Z = false) by lia.
  rewrite Hlt. simpl.
  fold (futures_of hs (count args)). rewrite Hf. simpl.
  pose proof (print_stats_value w final (output args)) as Hp.
  destruct (print_stats w final (output args)) as [tp [[]|]]; simpl in *;
    [|discriminate].
  now rewrite app_nil_r.
Qed.

Lemma get_hosts_no_submit (w : World) (args : Args) :
  requests (trace (get_hosts w args)) = []
  /\ forall h, filter (is_submit_to h) (trace (get_hosts w args)) = [].
Proof.
  unfold get_hosts, load_hosts_from_file.
  destruct (file args) as [[|c p]|], (hosts args) as [[|c' s]|]; simpl;
    try destruct (read_lines w (c :: p)); simpl; auto.
Qed.

(** The statistics at any point of a run: every entry is what the results
    folded so far for its host make of the zero entry. *)
Lemma stats_during_run (w : World) (hs : list str) (n : Z)
    (p q : list (str * result)) :
  completions w (futures_of hs n) = p ++ q ->
  exists s, aggregate (init_stats hs) p = Some s
    /\ dict_keys s = dict_keys (init_stats hs)
    /\ forall h d, dict_get h s = Some d ->
         In h hs /\ d = apply_all (for_host h p) zero_stats.
Proof.
  intros Hpq. destruct (aggregate_run w hs n p q Hpq) as [s Hs].
  exists s. split; [exact Hs|]. split; [exact (aggregate_keys _ _ Hs)|].
  intros h d Hd. rewrite (aggregate_get h _ _ Hs) in Hd.
  destruct (dict_get h (init_stats hs)) as [v|] eqn:Ev; [|discriminate].
  simpl in Hd. injection Hd as <-.
  rewrite (init_stats_get_zero hs h Ev). split; auto.
  apply init_stats_keys, dict_get_In. congruence.
Qed.

(** ** Results of the run *)



(** C2: at every point of the aggregation the three counters of a target
    add up to the number of completed tasks folded so far for it, each
    folded result incrementing exactly one counter; when the run is over
    the counters of all targets add up to the number of targets (the
    length of the input list) times the repeat count; when no target is
    repeated the entries are exactly the targets. *)
Theorem counters_count_completed_tasks (w : World) (args : Args)
    (hs : list str) :
  accepted_hosts w args = Some hs ->
  (forall p q, completions w (futures_of hs (count args)) = p ++ q ->
     exists s, aggregate (init_stats hs) p = Some s
       /\ forall h d, dict_get h s = Some d ->
            counter_sum d = length (for_host h p))
  /\ (forall r d,
        let d' := classify r d in
        (success d', failed d', errors d')
          = (S (success d), failed d, errors d)
        \/ (success d', failed d', errors d')
          = (success d, S (failed d), errors d)
        \/ (success d', failed d', errors d')
          = (success d, failed d, S (errors d)))
  /\ exists final, value (main w args) = Some final
       /\ total_count final = length hs * Z.to_nat (count args)
       /\ (NoDup hs -> dict_keys final = hs).
Proof.
  intros Hacc. split; [|split].
  - intros p q Hpq.
    destruct (stats_during_run w hs (count args) p q Hpq) as (s & Hs & _ & Hd).
    exists s. split; [exact Hs|]. intros h d Hg.
    destruct (Hd h d Hg) as [_ ->].
    rewrite apply_all_closed. unfold counter_sum. simpl.
    apply class_partition.
  - intros r d. destruct r as [st el|]; simpl; auto.
    destruct ((200 <=? st) && (st <? 400))%Z; simpl; auto.
    destruct ((400 <=? st) && (st <? 600))%Z; simpl; auto.
  - destruct (main_run w args Hacc) as (final & Hf & Hm).
    exists final. rewrite Hm. split; [reflexivity|]. split.
    + rewrite (aggregate_total _ _ Hf), init_stats_total.
      rewrite (Permutation_length (completions_perm w _)).
      unfold outcomes, futures_of.
      rewrite length_map, length_combine, length_seq, Nat.min_id.
      apply tasks_length.
    + intros Hnd. rewrite (aggregate_keys _ _ Hf).
      now apply init_stats_keys_distinct.
Qed.

Lemma counters_count_completed_tasks_witness :
  exists final, value (main sample_world sample_args) = Some final
    /\ total_count final = 3 * 2.
Proof.
  assert (H : accepted_hosts sample_world sample_args
              = Some [host_a; host_b; host_a]) by (vm_compute; reflexivity).
  destruct (counters_count_completed_tasks sample_world sample_args H)
    as (_ & _ & final & Hv & Ht & _).
  exists final. split; [exact Hv | exact Ht].
Defined.

(** The loop after one more completed task: the statistics it had, the
    statistics it has, and the entry of the task's host before and
    after. *)
Lemma aggregate_step (w : World) (hs : list str) (n : Z)
    (p q : list (str * result)) (h : str) (r : result) :
  completions w (futures_of hs n) = p ++ (h, r) :: q ->
  exists s d,
    aggregate (init_stats hs) p = Some s
    /\ dict_get h s = Some d
    /\ aggregate (init_stats hs) (p ++ [(h, r)])
       = Some (dict_set h (classify r d) s).
Proof.
  intros Hpq.
  destruct (aggregate_run w hs n p ((h, r) :: q) Hpq) as [s Hs].
  assert (Hpq' : completions w (futures_of hs n) = (p ++ [(h, r)]) ++ q)
    by now rewrite <- app_assoc.
  destruct (aggregate_run w hs n (p ++ [(h, r)]) q Hpq') as [s' Hs'].
  rewrite aggregate_app, Hs in Hs'. simpl in Hs'.
  destruct (fold_result s h r) as [s1|] eqn:E; [|discriminate].
  injection Hs' as <-.
  apply fold_result_inv in E as (d & Hd & ->).
  exists s, d. split; [exact Hs|]. split; [exact Hd|].
  rewrite aggregate_app, Hs. simpl.
  unfold fold_result, update_entry. now rewrite Hd.
Qed.

(** C3: at every point of the aggregation the latency list of a target is
    as long as its [success] counter: it holds the elapsed times of the
    successes folded so far for the target; folding one more completed
    task appends its elapsed time to the list of its target exactly when
    its status is in 200..399, and leaves every other list as it was. *)
Theorem latencies_match_success_count (w : World) (args : Args)
    (hs : list str) :
  accepted_hosts w args = Some hs ->
  (forall p q, completions w (futures_of hs (count args)) = p ++ q ->
     exists s, aggregate (init_stats hs) p = Some s
       /\ forall h d, dict_get h s = Some d ->
            length (times d) = success d
            /\ times d = latencies (for_host h p)
            /\ success d = length (filter is_success (for_host h p)))
  /\ (forall p h r q,
        completions w (futures_of hs (count args)) = p ++ (h, r) :: q ->
        exists s s' d d',
          aggregate (init_stats hs) p = Some s
          /\ aggregate (init_stats hs) (p ++ [(h, r)]) = Some s'
          /\ dict_get h s = Some d
          /\ dict_get h s' = Some d'
          /\ (forall h', h' <> h -> dict_get h' s' = dict_get h' s)
          /\ match r with
             | Measured st el =>
               ((200 <= st < 400)%Z ->
                  times d' = times d ++ [el]
                  /\ success d' = S (success d))
               /\ (~ (200 <= st < 400)%Z ->
                  times d' = times d /\ success d' = success d)
             | NoneNone => times d' = times d /\ success d' = success d
             end)
  /\ (forall st el d,
        ((200 <= st < 400)%Z ->
           times (classify (Measured st el) d) = times d ++ [el]
           /\ success (classify (Measured st el) d) = S (success d))
        /\ (~ (200 <= st < 400)%Z ->
           times (classify (Measured st el) d) = times d
           /\ success (classify (Measured st el) d) = success d))
  /\ (forall d, times (classify NoneNone d) = times d
                /\ success (classify NoneNone d) = success d).
Proof.
  intros Hacc.
  assert (Hc : forall st el d,
        ((200 <= st < 400)%Z ->
           times (classify (Measured st el) d) = times d ++ [el]
           /\ success (classify (Measured st el) d) = S (success d))
        /\ (~ (200 <= st < 400)%Z ->
           times (classify (Measured st el) d) = times d
           /\ success (classify (Measured st el) d) = success d)).
  { intros st el d. split; intros H; simpl.
    + assert (E : ((200 <=? st) && (st <? 400))%Z = true) by lia.
      rewrite E. auto.
    + assert (E : ((200 <=? st) && (st <? 400))%Z = false) by lia.
      rewrite E. destruct ((400 <=? st) && (st <? 600))%Z; auto. }
  split; [|split; [|split; [exact Hc|]]].
  - intros p q Hpq.
    destruct (stats_during_run w hs (count args) p q Hpq) as (s & Hs & _ & Hd).
    exists s. split; [exact Hs|]. intros h d Hg.
    destruct (Hd h d Hg) as [_ ->].
    rewrite apply_all_closed. simpl. split; [apply latencies_length|].
    split; reflexivity.
  - intros p h r q Hpq.
    destruct (aggregate_step w hs (count args) p q h r Hpq)
      as (s & d & Hs & Hd & Hs').
    exists s, (dict_set h (classify r d) s), d, (classify r d).
    split; [exact Hs|]. split; [exact Hs'|]. split; [exact Hd|].
    split; [apply dict_get_set_same|]. split.
    + intros h' Hn. now apply dict_get_set_other.
    + destruct r as [st el|]; [apply Hc | simpl; auto].
  - intros d. simpl. auto.
Qed.

Lemma latencies_match_success_count_witness :
  exists s s' d d',
    aggregate (init_stats [host_a; host_b; host_a])
      (firstn 1 (completions sample_world
                   (futures_of [host_a; host_b; host_a] 2))) = Some s
    /\ aggregate (init_stats [host_a; host_b; host_a])
         (firstn 1 (completions sample_world
                      (futures_of [host_a; host_b; host_a] 2))
          ++ [(host_a,
               Measured 200 (float_sub (float_scaled 7 (-1))
                                       (float_scaled 1 0)))]) = Some s'
    /\ dict_get host_a s = Some d
    /\ dict_get host_a s' = Some d'
    /\ times d' = times d ++ [float_sub (float_scaled 7 (-1))
                                        (float_scaled 1 0)]
    /\ success d' = S (success d).
Proof.
  assert (H : accepted_hosts sample_world sample_args
              = Some [host_a; host_b; host_a]) by (vm_compute; reflexivity).
  destruct (latencies_match_success_count sample_world sample_args H)
    as (_ & Hstep & _).
  destruct (Hstep
              (firstn 1 (completions sample_world
                           (futures_of [host_a; host_b; host_a] 2)))
              host_a
              (Measured 200 (float_sub (float_scaled 7 (-1))
                                       (float_scaled 1 0)))
              (skipn 2 (completions sample_world
                          (futures_of [host_a; host_b; host_a] 2))))
    as (s & s' & d & d' & Hs & Hs' & Hd & Hd' & _ & Hr & _).
  - vm_compute. reflexivity.
  - exists s, s', d, d'.
    split; [exact Hs|]. split; [exact Hs'|]. split; [exact Hd|].
    split; [exact Hd'|]. apply Hr. lia.
Defined.

(** C4: folding is independent of the order: two permutations of the same
    (target, result) pairs, folded into the initial statistics, give for
    every target the same counters and the same latencies as a multiset;
    the fold succeeds whenever every pair names one of the targets. *)
Theorem folding_order_independent (hs : list str)
    (l1 l2 : list (str * result)) :
  Permutation l1 l2 ->
  (forall x, In x l1 -> In (fst x) hs) ->
  exists s1 s2,
    aggregate (init_stats hs) l1 = Some s1
    /\ aggregate (init_stats hs) l2 = Some s2
    /\ dict_keys s1 = dict_keys s2
    /\ forall h, In h hs ->
         exists d1 d2, dict_get h s1 = Some d1 /\ dict_get h s2 = Some d2
                       /\ same_stats d1 d2.
Proof.
  intros Hp Hin.
  destruct (aggregate_some l1 (init_stats hs)) as [s1 H1].
  { intros x Hx. apply init_stats_keys. auto. }
  destruct (aggregate_some l2 (init_stats hs)) as [s2 H2].
  { intros x Hx. apply init_stats_keys, Hin.
    now apply (Permutation_in _ (Permutation_sym Hp)). }
  exists s1, s2. repeat split; auto.
  - now rewrite (aggregate_keys _ _ H1), (aggregate_keys _ _ H2).
  - intros h Hh.
    exists (apply_all (for_host h l1) zero_stats),
           (apply_all (for_host h l2) zero_stats).
    rewrite (aggregate_get h _ _ H1), (aggregate_get h _ _ H2).
    rewrite (init_stats_get hs h Hh). simpl. repeat split.
    + rewrite !apply_all_closed. simpl.
      apply Permutation_length, Permutation_filter, for_host_perm, Hp.
    + rewrite !apply_all_closed. simpl.
      apply Permutation_length, Permutation_filter, for_host_perm, Hp.
    + rewrite !apply_all_closed. simpl.
      apply Permutation_length, Permutation_filter, for_host_perm, Hp.
    + rewrite !apply_all_closed. simpl.
      unfold latencies. apply Permutation_flat_map, for_host_perm, Hp.
Qed.

Lemma folding_order_independent_witness :
  exists s1 s2,
    aggregate (init_stats [host_a; host_b])
      [(host_a, Measured 200 (float_scaled 1 (-1))); (host_b, NoneNone);
       (host_a, Measured 301 (float_scaled 1 (-2)))] = Some s1
    /\ aggregate (init_stats [host_a; host_b])
      [(host_a, Measured 301 (float_scaled 1 (-2)));
       (host_a, Measured 200 (float_scaled 1 (-1))); (host_b, NoneNone)]
      = Some s2
    /\ dict_keys s1 = dict_keys s2
    /\ forall h, In h [host_a; host_b] ->
         exists d1 d2, dict_get h s1 = Some d1 /\ dict_get h s2 = Some d2
                       /\ same_stats d1 d2.
Proof.
  apply folding_order_independent.
  - apply Permutation_sym.
    apply (Permutation_cons_app [_; _] [] _ (Permutation_refl _)).
  - simpl. intros x [<-|[<-|[<-|[]]]]; simpl; auto.
Defined.





(** C10: a target string that occurs [k] times in the input list is
    neither rejected nor deduplicated: the statistics hold one entry for
    it, [k * count] tasks are submitted for it, and all their results are
    folded into that entry, whose counters add up to [k * count]. *)
Theorem duplicate_targets_share_one_entry (w : World) (args : Args)
    (hs : list str) (h : str) :
  accepted_hosts w args = Some hs ->
  In h hs ->
  let k := count_occ str_eq_dec hs h in
  exists final d,
    value (main w args) = Some final
    /\ count_occ str_eq_dec (dict_keys final) h = 1
    /\ dict_get h final = Some d
    /\ length (filter (is_submit_to h) (trace (main w args)))
       = k * Z.to_nat (count args)
    /\ counter_sum d = k * Z.to_nat (count args).
Proof.
  intros Hacc Hh k. destruct (main_run w args Hacc) as (final & Hf & Hm).
  exists final, (apply_all (for_host h
    (completions w (futures_of hs (count args)))) zero_stats).
  rewrite Hm. split; [reflexivity|]. split; [|split; [|split]].
  - rewrite (aggregate_keys _ _ Hf).
    apply NoDup_count_occ'; [apply init_stats_NoDup|].
    now apply init_stats_keys.
  - now rewrite (aggregate_get h _ _ Hf), (init_stats_get hs h Hh).
  - unfold trace. simpl. rewrite !filter_app.
    destruct (get_hosts_no_submit w args) as [_ G]. unfold trace in G.
    rewrite G. fold (trace (print_stats w final (output args))).
    rewrite print_stats_requests, app_nil_r. simpl.
    rewrite submitted_count. apply tasks_count_occ.
  - rewrite apply_all_closed. unfold counter_sum. simpl.
    rewrite class_partition.
    rewrite (Permutation_length (for_host_perm h (completions_perm w _))).
    rewrite for_host_length, outcomes_hosts, futures_hosts.
    apply tasks_count_occ.
Qed.

Lemma duplicate_targets_share_one_entry_witness :
  exists final d,
    value (main sample_world sample_args) = Some final
    /\ count_occ str_eq_dec (dict_keys final) host_a = 1
    /\ dict_get host_a final = Some d
    /\ length (filter (is_submit_to host_a)
                 (trace (main sample_world sample_args))) = 2 * 2
    /\ counter_sum d = 2 * 2.
Proof.
  apply (@duplicate_targets_share_one_entry sample_world sample_args
           [host_a; host_b; host_a] host_a).
  - vm_compute. reflexivity.
  - left. reflexivity.
Defined.

(** ** The URL pattern *)

Lemma drop_prefix_spec (l s s' : str) :
  drop_prefix l s = Some s' <-> s = l ++ s'.
Proof.
  revert s. induction l as [|a l IH]; intros s; simpl.
  - split; congruence.
  - destruct s as [|b s]; [split; discriminate|].
    destruct (N.eqb_spec a b) as [->|Hn].
    + rewrite IH. split; congruence.
    + split; [discriminate | congruence].
Qed.

Lemma many_spec (p : N -> bool) (s : str) :
  forall least pos k,
    many p least pos s k = true <->
    exists a s', s = a ++ s' /\ forallb p a = true /\ least <= length a
                 /\ k (pos + length a) s' = true.
Proof.
  induction s as [|c s IH]; intros least pos k.
  - simpl. rewrite andb_true_iff, Nat.eqb_eq. split.
    + intros [-> Hk]. exists [], []. simpl. now rewrite Nat.add_0_r.
    + intros (a & s' & E & _ & Hl & Hk).
      symmetry in E. apply app_eq_nil in E as [-> ->].
      simpl in *. rewrite Nat.add_0_r in Hk. split; [lia | exact Hk].
  - cbn [many]. destruct (p c) eqn:Ec.
    + rewrite orb_true_iff, andb_true_iff, Nat.eqb_eq, IH. split.
      * intros [(a & s' & -> & Ha & Hl & Hk) | [-> Hk]].
        -- exists (c :: a), s'. simpl. rewrite Ec, Ha.
           rewrite Nat.add_succ_r. repeat split; auto. lia.
        -- exists [], (c :: s). simpl. now rewrite Nat.add_0_r.
      * intros ([|c' a] & s' & E & Ha & Hl & Hk).
        -- right. simpl in *. subst s'. rewrite Nat.add_0_r in Hk.
           split; [lia | exact Hk].
        -- left. simpl in E. injection E as -> ->.
           simpl in Ha. apply andb_prop in Ha as [_ Ha].
           exists a, s'. simpl in Hl, Hk. rewrite Nat.add_succ_r in Hk.
           repeat split; auto. lia.
    + rewrite andb_true_iff, Nat.eqb_eq. split.
      * intros [-> Hk]. exists [], (c :: s). simpl. now rewrite Nat.add_0_r.
      * intros ([|c' a] & s' & E & Ha & Hl & Hk).
        -- simpl in *. subst s'. rewrite Nat.add_0_r in Hk.
           split; [lia | exact Hk].
        -- simpl in E. injection E as -> ->. simpl in Ha. now rewrite Ec in Ha.
Qed.

Lemma rmatch_spec (r : regex) :
  forall pos s k,
    rmatch r pos s k = true <->
    exists pos' s', consumes r pos s pos' s' /\ k pos' s' = true.
Proof.
  induction r as [| |l|least p|a IHa b IHb|a IHa]; intros pos s k; simpl.
  - rewrite andb_true_iff, Nat.eqb_eq. split.
    + intros [-> Hk]. exists 0, s. auto.
    + intros (pos' & s' & (-> & -> & ->) & Hk). auto.
  - rewrite andb_true_iff. split.
    + intros [He Hk]. exists pos, s. auto.
    + intros (pos' & s' & (He & -> & ->) & Hk). auto.
  - destruct (drop_prefix l s) as [s1|] eqn:E.
    + apply drop_prefix_spec in E. subst s. split.
      * intros Hk. exists (pos + length l), s1. auto.
      * intros (pos' & s' & (E & ->) & Hk).
        apply app_inv_head in E. now subst.
    + split; [discriminate|].
      intros (pos' & s' & (Es & _) & _).
      apply drop_prefix_spec in Es. congruence.
  - rewrite many_spec. split.
    + intros (a & s' & -> & Ha & Hl & Hk).
      exists (pos + length a), s'. split; auto. exists a. auto.
    + intros (pos' & s' & (a & -> & Ha & Hl & ->) & Hk).
      exists a, s'. auto.
  - rewrite IHa. split.
    + intros (pos1 & s1 & Ha & Hb). apply IHb in Hb as (pos' & s' & Hb & Hk).
      exists pos', s'. split; auto. exists pos1, s1. auto.
    + intros (pos' & s' & (pos1 & s1 & Ha & Hb) & Hk).
      exists pos1, s1. split; auto. apply IHb. eauto.
  - rewrite orb_true_iff, IHa. split.
    + intros [(pos' & s' & Ha & Hk) | Hk]; [exists pos', s' | exists pos, s];
        auto.
    + intros (pos' & s' & [Ha | [-> ->]] & Hk); eauto.
Qed.

Lemma at_end_spec (s : str) : at_end s = true <-> s = [] \/ s = [newline].
Proof.
  destruct s as [|c [|c' s]]; simpl.
  - tauto.
  - rewrite N.eqb_eq. unfold newline. split.
    + intros ->. now right.
    + intros [H|H]; congruence.
  - split; [discriminate | intros [H|H]; discriminate].
Qed.

(** [validate_host] accepts exactly the strings of the URL format. *)
Lemma validate_host_spec (url : str) :
  validate_host url = true <-> url_format url.
Proof.
  unfold validate_host, re_match. rewrite rmatch_spec. split.
  - intros (pos' & s' & H & _). cbn [URL_REGEX consumes] in H.
    destruct H as (p1 & s1 & (_ & _ & Es1) & p2 & s2 & (E2 & _) & p3 & s3
                   & (host & E3 & Hh & Hl & _) & p4 & s4 & Ho
                   & (He & _ & _)).
    apply at_end_spec in He. subst s1.
    assert (Hne : host <> []) by (intros ->; simpl in Hl; lia).
    destruct Ho as [(p5 & s5 & (E5 & _) & (p & Ep & Hp & _ & _)) | [_ E4]].
    + exists host, (47%N :: p), s4. repeat split; auto.
      * rewrite E2, E3, E5, Ep. reflexivity.
      * right. exists p. auto.
    + exists host, [], s4. repeat split; auto.
      rewrite E2, E3, E4. reflexivity.
  - intros (host & path & tail & -> & Hne & Hh & Hp & Ht).
    assert (Hl : 1 <= length host) by (destruct host; [congruence | simpl; lia]).
    apply at_end_spec in Ht.
    destruct Hp as [-> | (p & -> & Hp)].
    + eexists _, tail. split; [|reflexivity]. cbn [URL_REGEX consumes].
      exists 0, (lit "https://" ++ host ++ [] ++ tail). split; [auto|].
      eexists _, (host ++ tail). split; [split; reflexivity|].
      eexists _, tail. split.
      { exists host. split; [reflexivity|]. split; [exact Hh|].
        split; [exact Hl | reflexivity]. }
      eexists _, tail. split; [right; split; reflexivity|].
      split; [exact Ht|]. split; reflexivity.
    + eexists _, tail. split; [|reflexivity]. cbn [URL_REGEX consumes].
      exists 0, (lit "https://" ++ host ++ (47%N :: p) ++ tail).
      split; [auto|].
      eexists _, (host ++ (47%N :: p) ++ tail). split; [split; reflexivity|].
      eexists _, ((47%N :: p) ++ tail). split.
      { exists host. split; [reflexivity|]. split; [exact Hh|].
        split; [exact Hl | reflexivity]. }
      eexists _, tail. split.
      { left. eexists _, (p ++ tail). split; [split; reflexivity|].
        exists p. split; [reflexivity|]. split; [exact Hp|].
        split; [lia | reflexivity]. }
      split; [exact Ht|]. split; reflexivity.
Qed.

Lemma validate_host_false (url : str) :
  validate_host url = false <-> ~ url_format url.
Proof.
  rewrite <- validate_host_spec. destruct (validate_host url); split; congruence.
Qed.

Lemma forallb_validate (hs : list str) :
  forallb validate_host hs = true <-> Forall url_format hs.
Proof.
  rewrite forallb_forall, Forall_forall.
  split; intros H x Hx; apply validate_host_spec; auto.
Qed.

(** ** Refused command lines *)

Lemma error_messages :
  error_message msg_both /\ error_message msg_neither
  /\ error_message msg_count /\ (forall h, error_message (msg_bad_url h))
  /\ forall path e,
       error_message (lit "Ошибка чтения файла '" ++ path ++ lit "': " ++ e).
Proof.
  unfold error_message, msg_bad_url. repeat split; intros;
    vm_compute; eexists; reflexivity.
Qed.

Lemma get_hosts_printed (w : World) (args : Args) :
  match value (get_hosts w args) with
  | Some _ => printed (trace (get_hosts w args)) = []
  | None => exists m, printed (trace (get_hosts w args)) = [m]
                      /\ error_message m
  end.
Proof.
  destruct error_messages as (_ & Hn & _ & _ & Hf).
  unfold get_hosts, load_hosts_from_file, print, emit, ret, stop, bind,
    value, trace, printed.
  destruct (file args) as [[|c p]|], (hosts args) as [[|c' s]|];
    try destruct (read_lines w (c :: p));
    cbn [fst snd app flat_map]; eauto;
    eexists; (split; [reflexivity | apply (Hf (c :: p))]).
Qed.

Lemma printed_app (a b : list event) : printed (a ++ b) = printed a ++ printed b.
Proof. unfold printed. apply flat_map_app. Qed.

Lemma requests_app (a b : list event) :
  requests (a ++ b) = requests a ++ requests b.
Proof. unfold requests. apply filter_app. Qed.

Lemma check_hosts_cases (hs : list str) :
  (forallb validate_host hs = true /\ check_hosts hs = ([], Some tt))
  \/ exists pre bad post,
       hs = pre ++ bad :: post
       /\ forallb validate_host pre = true /\ validate_host bad = false
       /\ check_hosts hs = ([Print (msg_bad_url bad)], None).
Proof.
  destruct (forallb validate_host hs) eqn:E.
  - left. split; auto. now apply check_hosts_ok.
  - right. destruct (first_invalid hs E) as (pre & bad & post & -> & Hp & Hb).
    exists pre, bad, post. repeat split; auto. now apply check_hosts_bad.
Qed.

(** The run up to the submission of the tasks: either it stops with one
    diagnostic, or every check has passed. *)
Lemma main_checks (w : World) (args : Args) :
  (exists t m, main w args = (t, None) /\ printed t = [m]
               /\ error_message m /\ requests t = [])
  \/ exists hs, accepted_hosts w args = Some hs.
Proof.
  destruct error_messages as (Eb & _ & Ec & Eu & _).
  unfold main, accepted_hosts.
  destruct (truthy (hosts args) && truthy (file args)).
  { left. exists [Print msg_both], msg_both. auto. }
  pose proof (get_hosts_printed w args) as Hp.
  destruct (get_hosts_no_submit w args) as [Hr _].
  destruct (get_hosts w args) as [t [hs|]]; simpl in *.
  - destruct (check_hosts_cases hs) as [[Hv ->] | (pre & bad & post & -> & _ & Hb & ->)].
    + rewrite Hv. simpl. destruct (count args <? 1)%Z eqn:Ecnt.
      * left. exists (t ++ [Print msg_count]), msg_count. simpl.
        rewrite printed_app, requests_app, Hp, Hr. auto.
      * right. exists hs. assert (E : (1 <=? count args)%Z = true) by lia.
        now rewrite E.
    + left. exists (t ++ [Print (msg_bad_url bad)]), (msg_bad_url bad). simpl.
      rewrite printed_app, requests_app, Hp, Hr. auto.
  - left. destruct Hp as (m & Hm & He). exists t, m. auto.
Qed.

(** C6: when the input list holds a string that does not have the URL
    format, whatever the other strings are, the run stops at the first
    such string with a diagnostic that names it, and no request has been
    issued. *)
Theorem malformed_target_aborts (w : World) (args : Args) (hs : list str) :
  truthy (hosts args) && truthy (file args) = false ->
  value (get_hosts w args) = Some hs ->
  (exists h, In h hs /\ ~ url_format h) ->
  exists pre bad post,
    hs = pre ++ bad :: post
    /\ Forall url_format pre /\ ~ url_format bad
    /\ main w args
       = (trace (get_hosts w args) ++ [Print (msg_bad_url bad)], None)
    /\ requests (trace (main w args)) = []
    /\ exists a b, msg_bad_url bad = a ++ bad ++ b.
Proof.
  intros Hb Hg (h & Hin & Hbad).
  assert (E : forallb validate_host hs = false).
  { destruct (forallb validate_host hs) eqn:E; auto.
    rewrite forallb_forall in E. apply validate_host_false in Hbad.
    rewrite (E h Hin) in Hbad. discriminate. }
  destruct (first_invalid hs E) as (pre & bad & post & -> & Hp & Hf).
  exists pre, bad, post.
  assert (Hm : main w args
          = (trace (get_hosts w args) ++ [Print (msg_bad_url bad)], None)).
  { unfold main. rewrite Hb.
    destruct (get_hosts w args) as [t [hs'|]]; simpl in Hg; [|discriminate].
    injection Hg as ->. simpl. now rewrite (@check_hosts_bad pre post bad Hp Hf). }
  split; [reflexivity|]. split; [now apply forallb_validate|].
  split; [now apply validate_host_false|]. split; [exact Hm|]. split.
  - rewrite Hm. simpl. rewrite requests_app.
    destruct (get_hosts_no_submit w args) as [-> _]. reflexivity.
  - unfold msg_bad_url. eauto.
Qed.

Lemma malformed_target_aborts_witness :
  exists pre bad post,
    [host_a; lit "http://example.com"; host_b] = pre ++ bad :: post
    /\ Forall url_format pre /\ ~ url_format bad
    /\ main sample_world args_bad_url
       = (trace (get_hosts sample_world args_bad_url)
          ++ [Print (msg_bad_url bad)], None)
    /\ requests (trace (main sample_world args_bad_url)) = []
    /\ exists a b, msg_bad_url bad = a ++ bad ++ b.
Proof.
  apply (@malformed_target_aborts sample_world args_bad_url
           [host_a; lit "http://example.com"; host_b]).
  - reflexivity.
  - reflexivity.
  - exists (lit "http://example.com"). split.
    + right. left. reflexivity.
    + apply validate_host_false. reflexivity.
Defined.

(** C7: with a repeat count of zero or less the run stops with one error
    diagnostic and submits no task; the checks of the input mode, of the
    host file and of the URL format come first, and when they pass the
    diagnostic is the configuration error about the count. *)
Theorem nonpositive_count_aborts (w : World) (args : Args) :
  (count args < 1)%Z ->
  value (main w args) = None
  /\ requests (trace (main w args)) = []
  /\ (exists m, printed (trace (main w args)) = [m] /\ error_message m)
  /\ (forall hs,
        truthy (hosts args) && truthy (file args) = false ->
        value (get_hosts w args) = Some hs ->
        Forall url_format hs ->
        main w args = (trace (get_hosts w args) ++ [Print msg_count], None)
        /\ printed (trace (main w args)) = [msg_count]).
Proof.
  intros Hc.
  assert (Hno : forall hs, accepted_hosts w args <> Some hs).
  { intros hs H. apply accepted_hosts_inv in H. lia. }
  destruct (main_checks w args) as [(t & m & Hm & Hp & He & Hr) | [hs H]];
    [|now apply Hno in H].
  split; [now rewrite Hm|]. split; [now rewrite Hm|].
  split; [rewrite Hm; eauto|]. intros hs Hb Hg Hv.
  assert (E : main w args
              = (trace (get_hosts w args) ++ [Print msg_count], None)).
  { unfold main. rewrite Hb.
    destruct (get_hosts w args) as [t' [hs'|]]; simpl in Hg; [|discriminate].
    injection Hg as ->. simpl.
    apply forallb_validate in Hv. rewrite (check_hosts_ok hs Hv). simpl.
    assert (Ec : (count args <? 1)%Z = true) by lia.
    now rewrite Ec. }
  split; [exact E|].
  rewrite E. simpl. rewrite printed_app.
  pose proof (get_hosts_printed w args) as Hgp. rewrite Hg in Hgp.
  now rewrite Hgp.
Qed.

Lemma nonpositive_count_aborts_witness :
  value (main sample_world args_zero_count) = None
  /\ requests (trace (main sample_world args_zero_count)) = []
  /\ printed (trace (main sample_world args_zero_count)) = [msg_count].
Proof.
  destruct (@nonpositive_count_aborts sample_world args_zero_count)
    as (Hv & Hr & _ & Hm).
  - simpl. lia.
  - split; [exact Hv|]. split; [exact Hr|].
    apply (Hm [host_a; host_b]).
    + reflexivity.
    + reflexivity.
    + apply forallb_validate. reflexivity.
Defined.

Lemma msg_both_neither : msg_both <> msg_neither.
Proof. vm_compute. discriminate. Qed.

(** C8, as the code has it: a command line with both an inline list and
    a file (each non-empty), and one with neither (each absent or empty),
    stop the run before any file is opened and any request is issued; the
    first prints the message that [-H] and [-F] exclude each other, the
    second the message that one of them is required, and these two
    messages differ. *)
Theorem input_mode_errors (w : World) (args : Args) :
  (truthy (hosts args) = true -> truthy (file args) = true ->
     main w args = ([Print msg_both], None))
  /\ (truthy (hosts args) = false -> truthy (file args) = false ->
     main w args = ([Print msg_neither], None))
  /\ msg_both <> msg_neither.
Proof.
  split; [|split].
  - intros Hh Hf. unfold main. now rewrite Hh, Hf.
  - intros Hh Hf. unfold main, get_hosts. rewrite Hh. simpl.
    destruct (file args) as [[|c p]|]; try discriminate;
      destruct (hosts args) as [[|c' s]|]; try discriminate; reflexivity.
  - exact msg_both_neither.
Qed.

Lemma input_mode_errors_witness :
  main sample_world args_both = ([Print msg_both], None)
  /\ main sample_world args_neither = ([Print msg_neither], None).
Proof.
  split.
  - destruct (input_mode_errors sample_world args_both) as (H & _ & _).
    apply H; reflexivity.
  - destruct (input_mode_errors sample_world args_neither) as (_ & H & _).
    apply H; reflexivity.
Defined.

(** C8 as stated fails: the two command lines do not get the same
    message. *)
Lemma input_mode_messages_differ :
  printed (trace (main sample_world args_both)) = [msg_both]
  /\ printed (trace (main sample_world args_neither)) = [msg_neither]
  /\ printed (trace (main sample_world args_both))
     <> printed (trace (main sample_world args_neither)).
Proof.
  split; [reflexivity|]. split; [reflexivity|].
  vm_compute. discriminate.
Qed.

(** ** The order of floats *)

Lemma float_lt_trans (x y z : float) :
  float_lt x y = true -> float_lt y z = true -> float_lt x z = true.
Proof.
  unfold float_lt, SFltb, SFcompare.
  destruct x as [sx|sx| |sx mx ex], y as [sy|sy| |sy my ey],
           z as [sz|sz| |sz mz ez];
    try discriminate;
    repeat match goal with b : bool |- _ => destruct b end;
    try discriminate; try reflexivity;
    change (Pos.compare_cont Eq) with Pos.compare;
    destruct (Z.compare_spec ex ey); destruct (Z.compare_spec ey ez);
    destruct (Z.compare_spec ex ez);
    try discriminate; try reflexivity; try lia;
    destruct (Pos.compare_spec mx my); destruct (Pos.compare_spec my mz);
    destruct (Pos.compare_spec mx mz); simpl;
    try discriminate; try reflexivity; try lia.
Qed.

Lemma float_lt_irrefl (x : float) : float_lt x x = false.
Proof.
  unfold float_lt, SFltb, SFcompare.
  destruct x as [s|s| |s m e]; try destruct s; auto;
    rewrite Z.compare_refl; change (Pos.compare_cont Eq) with Pos.compare;
    rewrite Pos.compare_refl; reflexivity.
Qed.

Lemma float_compare_antisym (x y : float) :
  SFcompare y x = option_map CompOpp (SFcompare x y).
Proof.
  unfold SFcompare.
  destruct x as [sx|sx| |sx mx ex], y as [sy|sy| |sy my ey]; simpl; auto;
    repeat match goal with b : bool |- _ => destruct b end; simpl; auto;
    change (Pos.compare_cont Eq) with Pos.compare;
    rewrite (Z.compare_antisym ey ex), (Pos.compare_antisym my mx);
    destruct (ey ?= ex)%Z; simpl; auto; destruct (my ?= mx)%positive; auto.
Qed.

(** On floats that are numbers the order is total. *)
Lemma float_le_of_not_lt (x y : float) :
  is_nan x = false -> is_nan y = false ->
  float_lt x y = false -> float_le y x = true.
Proof.
  unfold float_lt, float_le, SFltb, SFleb. intros Hx Hy.
  rewrite (float_compare_antisym x y).
  destruct (SFcompare x y) as [[]|] eqn:E; simpl; auto; try discriminate.
  destruct x, y; simpl in *; discriminate.
Qed.

Lemma min_of_below (l : list float) :
  forall x, min_of x l = x \/ float_lt (min_of x l) x = true.
Proof.
  induction l as [|y l IH]; intros x; [now left|].
  change (min_of x (y :: l))
    with (min_of (if float_lt y x then y else x) l).
  destruct (float_lt y x) eqn:Eyx; [|apply IH].
  right. destruct (IH y) as [->|H]; auto.
  now apply float_lt_trans with y.
Qed.

Lemma max_of_above (l : list float) :
  forall x, max_of x l = x \/ float_lt x (max_of x l) = true.
Proof.
  induction l as [|y l IH]; intros x; [now left|].
  change (max_of x (y :: l))
    with (max_of (if float_lt x y then y else x) l).
  destruct (float_lt x y) eqn:Exy; [|apply IH].
  right. destruct (IH y) as [->|H]; auto.
  now apply float_lt_trans with y.
Qed.

Lemma min_of_spec (l : list float) :
  forall x, In (min_of x l) (x :: l)
            /\ forall t, In t (x :: l) -> float_lt t (min_of x l) = false.
Proof.
  induction l as [|y l IH]; intros x.
  - simpl. split; auto. intros t [<-|[]]. apply float_lt_irrefl.
  - change (min_of x (y :: l))
      with (min_of (if float_lt y x then y else x) l).
    destruct (IH (if float_lt y x then y else x)) as [Hin Hle].
    split.
    + destruct Hin as [E|Hin]; [|simpl; auto].
      rewrite <- E. destruct (float_lt y x); simpl; auto.
    + intros t [<-|[<-|Ht]].
      * destruct (float_lt y x) eqn:Eyx; [|apply Hle; now left].
        destruct (float_lt x (min_of y l)) eqn:E; auto.
        rewrite <- (Hle y (or_introl eq_refl)).
        symmetry. now apply float_lt_trans with x.
      * destruct (float_lt y x) eqn:Eyx; [apply Hle; now left|].
        destruct (float_lt y (min_of x l)) eqn:E; auto.
        rewrite <- Eyx. symmetry.
        destruct (min_of_below l x) as [Em|Hm]; [now rewrite Em in E|].
        now apply float_lt_trans with (min_of x l).
      * apply Hle. now right.
Qed.

Lemma max_of_spec (l : list float) :
  forall x, In (max_of x l) (x :: l)
            /\ forall t, In t (x :: l) -> float_lt (max_of x l) t = false.
Proof.
  induction l as [|y l IH]; intros x.
  - simpl. split; auto. intros t [<-|[]]. apply float_lt_irrefl.
  - change (max_of x (y :: l))
      with (max_of (if float_lt x y then y else x) l).
    destruct (IH (if float_lt x y then y else x)) as [Hin Hle].
    split.
    + destruct Hin as [E|Hin]; [|simpl; auto].
      rewrite <- E. destruct (float_lt x y); simpl; auto.
    + intros t [<-|[<-|Ht]].
      * destruct (float_lt x y) eqn:Exy; [|apply Hle; now left].
        destruct (float_lt (max_of y l) x) eqn:E; auto.
        rewrite <- (Hle y (or_introl eq_refl)).
        symmetry. now apply float_lt_trans with x.
      * destruct (float_lt x y) eqn:Exy; [apply Hle; now left|].
        destruct (float_lt (max_of x l) y) eqn:E; auto.
        rewrite <- Exy. symmetry.
        destruct (max_of_above l x) as [Em|Hm]; [now rewrite Em in E|].
        now apply float_lt_trans with (max_of x l).
      * apply Hle. now right.
Qed.

(** ** The format [.4f] *)

Lemma round_half_even_spec (num den : Z) :
  (0 < den)%Z -> (0 <= num)%Z ->
  let q := round_half_even num den in
  (0 <= q)%Z
  /\ (2 * Z.abs (q * den - num) <= den)%Z
  /\ ((2 * Z.abs (q * den - num) = den)%Z -> Z.even q = true).
Proof.
  intros Hd Hn. unfold round_half_even.
  pose proof (Z.div_mod num den ltac:(lia)) as E.
  pose proof (Z.mod_pos_bound num den Hd) as Hr.
  pose proof (Z.div_pos num den Hn Hd) as Hq.
  set (q0 := (num / den)%Z) in *. set (r := (num mod den)%Z) in *.
  destruct (Z.compare_spec (2 * r) den) as [Ec|Ec|Ec].
  - destruct (Z.even q0) eqn:Ev.
    + repeat split; auto; lia.
    + repeat split; try lia. intros _.
      change (q0 + 1)%Z with (Z.succ q0).
      now rewrite Z.even_succ, <- Z.negb_even, Ev.
  - repeat split; lia.
  - repeat split; lia.
Qed.

Lemma digits4 (n : N) :
  (n < 10000)%N ->
  exists d1 d2 d3 d4,
    (d1 < 10 /\ d2 < 10 /\ d3 < 10 /\ d4 < 10)%N
    /\ n = (1000 * d1 + 100 * d2 + 10 * d3 + d4)%N
    /\ frac4 n = [48 + d1; 48 + d2; 48 + d3; 48 + d4]%N.
Proof.
  intros Hn.
  exists ((n / 1000) mod 10)%N, ((n / 100) mod 10)%N, ((n / 10) mod 10)%N,
         (n mod 10)%N.
  split; [|split; [|reflexivity]].
  - repeat split; apply N.mod_upper_bound; discriminate.
  - pose proof (N.div_mod n 10 ltac:(discriminate)) as E1.
    pose proof (N.div_mod (n / 10) 10 ltac:(discriminate)) as E2.
    pose proof (N.div_mod (n / 100) 10 ltac:(discriminate)) as E3.
    rewrite (N.Div0.div_div n 10 10) in E2.
    rewrite (N.Div0.div_div n 100 10) in E3.
    change (10 * 10)%N with 100%N in E2.
    change (100 * 10)%N with 1000%N in E3.
    assert (E4 : ((n / 1000) mod 10 = n / 1000)%N).
    { apply N.mod_small. apply N.Div0.div_lt_upper_bound. exact Hn. }
    rewrite E4.
    generalize dependent (n / 1000)%N. generalize dependent (n / 100)%N.
    generalize dependent (n / 10)%N. intros a Ea b. revert Ea.
    generalize (a mod 10)%N (b mod 10)%N (n mod 10)%N.
    intros. lia.
Qed.

(** What [.4f] prints for a finite float: the digits of the integer
    nearest to its value times [10^4], ties to even. *)
Lemma format_4f_digits (s : bool) (m : positive) (e : Z) :
  let q := scaled4 m e in
  (0 <= q)%Z
  /\ ((0 <= e)%Z -> q = (Zpos m * 2 ^ e * 10000)%Z)
  /\ ((e < 0)%Z ->
      (2 * Z.abs (q * 2 ^ (- e) - Zpos m * 10000) <= 2 ^ (- e))%Z
      /\ ((2 * Z.abs (q * 2 ^ (- e) - Zpos m * 10000) = 2 ^ (- e))%Z ->
          Z.even q = true))
  /\ exists ip d1 d2 d3 d4,
       (d1 < 10 /\ d2 < 10 /\ d3 < 10 /\ d4 < 10)%N
       /\ Z.to_N q = (10000 * ip + 1000 * d1 + 100 * d2 + 10 * d3 + d4)%N
       /\ format_4f (S754_finite s m e)
          = sign_str s ++ str_of_N ip ++ lit "."
            ++ [48 + d1; 48 + d2; 48 + d3; 48 + d4]%N.
Proof.
  intros q.
  assert (Hq : (0 <= q)%Z
     /\ ((e < 0)%Z ->
         (2 * Z.abs (q * 2 ^ (- e) - Zpos m * 10000) <= 2 ^ (- e))%Z
         /\ ((2 * Z.abs (q * 2 ^ (- e) - Zpos m * 10000) = 2 ^ (- e))%Z ->
             Z.even q = true))).
  { unfold q, scaled4. destruct (Z.leb_spec 0 e) as [He|He].
    - split; [|lia].
      assert (0 < 2 ^ e)%Z by (apply Z.pow_pos_nonneg; lia). nia.
    - assert (Hd : (0 < 2 ^ (- e))%Z) by (apply Z.pow_pos_nonneg; lia).
      destruct (@round_half_even_spec (Zpos m * 10000)%Z (2 ^ (- e))%Z Hd
                  ltac:(lia)) as (H0 & H1 & H2).
      split; [exact H0|]. intros _. split; [exact H1 | exact H2]. }
  destruct Hq as [H0 Hneg]. split; [exact H0|]. split.
  - intros He. unfold q, scaled4.
    destruct (Z.leb_spec 0 e); [reflexivity | lia].
  - split; [exact Hneg|].
    destruct (@digits4 (Z.to_N q mod 10000)%N)
      as (d1 & d2 & d3 & d4 & Hd & Hv & Hf).
    { apply N.mod_upper_bound. discriminate. }
    exists (Z.to_N q / 10000)%N, d1, d2, d3, d4.
    split; [exact Hd|]. split.
    + rewrite (N.div_mod (Z.to_N q) 10000%N) at 1 by discriminate.
      rewrite Hv. lia.
    + cbn [format_4f]. fold q. now rewrite Hf.
Qed.

(** ** The report *)

Lemma digit_is_digit (d : N) : is_digit (digit d) = true.
Proof.
  unfold is_digit, in_range, digit.
  assert (H : (d mod 10 < 10)%N) by (apply N.mod_upper_bound; discriminate).
  revert H. generalize (d mod 10)%N. intros n H.
  apply andb_true_intro. split; apply N.leb_le; lia.
Qed.

(** A float that is a number is written with exactly four digits after
    the decimal point. *)
Lemma format_4f_shape (x : float) :
  is_finite x = true ->
  exists ip fp, format_4f x = ip ++ lit "." ++ fp
                /\ length fp = 4 /\ forallb is_digit fp = true.
Proof.
  destruct x as [s| | |s m e]; simpl; try discriminate; intros _.
  - exists (sign_str s ++ lit "0"), (lit "0000").
    rewrite <- app_assoc. auto.
  - exists (sign_str s ++ str_of_N (Z.to_N (scaled4 m e) / 10000)),
           (frac4 (Z.to_N (scaled4 m e) mod 10000)).
    rewrite <- app_assoc. split; [reflexivity|]. split; [reflexivity|].
    unfold frac4. simpl. now rewrite !digit_is_digit.
Qed.

Lemma host_lines_empty (alg : sum_algorithm) (host : str)
    (data : TargetStats) :
  times data = [] ->
  host_lines alg host data
  = header_lines host data
    ++ [lit "  Min: -"; lit "  Max: -"; lit "  Avg: -"; []].
Proof. intros E. unfold host_lines. now rewrite E. Qed.

Lemma host_lines_nonempty (alg : sum_algorithm) (host : str)
    (data : TargetStats) :
  times data <> [] ->
  exists mn mx,
    In mn (times data) /\ In mx (times data)
    /\ (forall t, In t (times data) ->
          float_lt t mn = false /\ float_lt mx t = false)
    /\ host_lines alg host data
       = header_lines host data
         ++ [lit "  Min: " ++ format_4f mn ++ lit " s";
             lit "  Max: " ++ format_4f mx ++ lit " s";
             lit "  Avg: "
             ++ format_4f (float_div (py_sum alg (times data))
                             (float_of_nat (length (times data))))
             ++ lit " s";
             []].
Proof.
  intros Hne. unfold host_lines.
  destruct (times data) as [|x l]; [congruence|].
  destruct (min_of_spec l x) as [Hmi Hml].
  destruct (max_of_spec l x) as [Hxi Hxl].
  exists (min_of x l), (max_of x l). repeat split; auto.
Qed.

Lemma report_lines_block (alg : sum_algorithm) (stats : Stats)
    (host : str) (data : TargetStats) :
  In (host, data) stats ->
  exists before after,
    report_lines alg stats = before ++ host_lines alg host data ++ after.
Proof.
  intros Hin. apply in_split in Hin as (l1 & l2 & ->).
  exists (report_lines alg l1), (report_lines alg l2).
  unfold report_lines. rewrite flat_map_app. simpl. reflexivity.
Qed.

Lemma print_stats_emits (w : World) (stats : Stats) (o : option str) :
  let report := join [newline] (report_lines (sum_alg w) stats) in
  match o with
  | Some (c :: p) =>
    exists rest, trace (print_stats w stats o)
                 = OpenWrite (c :: p) report :: rest
  | _ => print_stats w stats o = ([Print report], Some tt)
  end.
Proof.
  unfold print_stats. destruct o as [[|c p]|]; simpl; auto.
  destruct (write_error w (c :: p) _); simpl; eauto.
Qed.

Lemma dict_get_of_In {V} (d : dict V) (k : str) (v : V) :
  NoDup (dict_keys d) -> In (k, v) d -> dict_get k d = Some v.
Proof.
  induction d as [|[k' v'] d IH]; simpl; [tauto|].
  intros Hnd [E|Hin].
  - injection E as -> ->. now rewrite str_eqb_refl.
  - inversion Hnd as [|? ? Hk Hnd']; subst.
    destruct (str_eqb k k') eqn:Ek; [|auto].
    apply str_eqb_eq in Ek. subst k'.
    exfalso. apply Hk. change k with (fst (k, v)). now apply in_map.
Qed.

(** How [sum] forms its result, for the two algorithms. *)
Lemma py_sum_plain_snoc (l : list float) (x : float) :
  py_sum PlainSum (l ++ [x]) = float_add (py_sum PlainSum l) x.
Proof. unfold py_sum. now rewrite fold_left_app. Qed.

Lemma py_sum_compensated_snoc (x0 : float) (l : list float) (x : float) :
  fold_left neumaier_step (l ++ [x]) (float_add float_zero x0, float_zero)
  = neumaier_step
      (fold_left neumaier_step l (float_add float_zero x0, float_zero)) x.
Proof. now rewrite fold_left_app. Qed.

(** C9, as the code has it: in the final report the block of a target
    with at least one success shows the minimum and the maximum of its
    latencies, which are the elapsed times of its successful requests
    only, and as Avg the float that [sum(times) / len(times)] computes in
    binary64, an approximation of the arithmetic mean that depends on how
    the interpreter's [sum] adds floats; each of the three is written as
    the value rounded to four decimals, with the unit [s].  The block of
    a target without a success shows [-] in the three fields. *)
Theorem report_latency_fields (w : World) (args : Args) (hs : list str) :
  accepted_hosts w args = Some hs ->
  exists final,
    value (main w args) = Some final
    /\ (let report := join [newline] (report_lines (sum_alg w) final) in
        In (Print report) (trace (main w args))
        \/ exists path, In (OpenWrite path report) (trace (main w args)))
    /\ (forall host data, In (host, data) final ->
        times data
        = latencies (for_host host
                       (completions w (futures_of hs (count args))))
        /\ (exists before after,
              report_lines (sum_alg w) final
              = before ++ host_lines (sum_alg w) host data ++ after)
        /\ (success data = 0 ->
            host_lines (sum_alg w) host data
            = header_lines host data
              ++ [lit "  Min: -"; lit "  Max: -"; lit "  Avg: -"; []])
        /\ (0 < success data ->
            exists mn mx,
              In mn (times data) /\ In mx (times data)
              /\ (forall t, In t (times data) ->
                    float_lt t mn = false /\ float_lt mx t = false)
              /\ ((forall t, In t (times data) -> is_nan t = false) ->
                  forall t, In t (times data) ->
                    float_le mn t = true /\ float_le t mx = true)
              /\ host_lines (sum_alg w) host data
                 = header_lines host data
                   ++ [lit "  Min: " ++ format_4f mn ++ lit " s";
                       lit "  Max: " ++ format_4f mx ++ lit " s";
                       lit "  Avg: "
                       ++ format_4f
                            (float_div (py_sum (sum_alg w) (times data))
                               (float_of_nat (length (times data))))
                       ++ lit " s";
                       []]))
    /\ (forall x, is_finite x = true ->
          exists ip fp, format_4f x = ip ++ lit "." ++ fp
                        /\ length fp = 4 /\ forallb is_digit fp = true)
    /\ (forall s m e,
          let q := scaled4 m e in
          (0 <= q)%Z
          /\ ((0 <= e)%Z -> q = (Zpos m * 2 ^ e * 10000)%Z)
          /\ ((e < 0)%Z ->
              (2 * Z.abs (q * 2 ^ (- e) - Zpos m * 10000) <= 2 ^ (- e))%Z
              /\ ((2 * Z.abs (q * 2 ^ (- e) - Zpos m * 10000)
                   = 2 ^ (- e))%Z -> Z.even q = true))
          /\ exists ip d1 d2 d3 d4,
               (d1 < 10 /\ d2 < 10 /\ d3 < 10 /\ d4 < 10)%N
               /\ Z.to_N q
                  = (10000 * ip + 1000 * d1 + 100 * d2 + 10 * d3 + d4)%N
               /\ format_4f (S754_finite s m e)
                  = sign_str s ++ str_of_N ip ++ lit "."
                    ++ [48 + d1; 48 + d2; 48 + d3; 48 + d4]%N)
    /\ (py_sum PlainSum [] = float_zero
        /\ (forall l x,
              py_sum PlainSum (l ++ [x]) = float_add (py_sum PlainSum l) x)
        /\ (forall x l,
              py_sum CompensatedSum (x :: l)
              = neumaier_finish
                  (fold_left neumaier_step l
                     (float_add float_zero x, float_zero)))
        /\ (forall x l y,
              fold_left neumaier_step (l ++ [y])
                (float_add float_zero x, float_zero)
              = neumaier_step
                  (fold_left neumaier_step l
                     (float_add float_zero x, float_zero)) y)).
Proof.
  intros Hacc. destruct (main_run w args Hacc) as (final & Hf & Hm).
  exists final. split; [now rewrite Hm|].
  split; [|split; [|split; [exact format_4f_shape|
                            split; [exact format_4f_digits|]]]].
  - assert (Ht : trace (main w args)
                 = trace (get_hosts w args)
                   ++ map Submit (tasks hs (count args))
                   ++ trace (print_stats w final (output args)))
      by now rewrite Hm.
    rewrite Ht.
    pose proof (print_stats_emits w final (output args)) as He.
    cbv zeta in *.
    destruct (output args) as [[|c p]|].
    + left. rewrite He. cbn [trace fst]. rewrite !in_app_iff. simpl. auto.
    + right. destruct He as [rest ->]. exists (c :: p).
      rewrite !in_app_iff. simpl. auto.
    + left. rewrite He. cbn [trace fst]. rewrite !in_app_iff. simpl. auto.
  - intros host data Hin.
    assert (Hg : dict_get host final = Some data).
    { apply dict_get_of_In; auto.
      rewrite (aggregate_keys _ _ Hf). apply init_stats_NoDup. }
    destruct (stats_during_run w hs (count args)
                (completions w (futures_of hs (count args))) []
                (eq_sym (app_nil_r _))) as (s & Hs & _ & Hd).
    rewrite Hf in Hs. injection Hs as <-.
    destruct (Hd host data Hg) as [_ Ed].
    rewrite apply_all_closed in Ed. simpl in Ed.
    assert (Et : times data = latencies (for_host host
                   (completions w (futures_of hs (count args)))))
      by now rewrite Ed.
    assert (El : length (times data) = success data).
    { rewrite Ed. simpl. apply latencies_length. }
    split; [exact Et|]. split; [now apply report_lines_block|]. split.
    + intros H0. apply host_lines_empty.
      destruct (times data); [reflexivity | simpl in El; lia].
    + intros Hpos.
      destruct (@host_lines_nonempty (sum_alg w) host data)
        as (mn & mx & Hmn & Hmx & Hb & Hl).
      { intros E. rewrite E in El. simpl in El. lia. }
      exists mn, mx. repeat split; auto; try (now apply Hb).
      * apply float_le_of_not_lt; auto. now apply Hb.
      * apply float_le_of_not_lt; auto. now apply Hb.
  - split; [reflexivity|]. split; [exact py_sum_plain_snoc|].
    split; [reflexivity|]. intros x l y. apply py_sum_compensated_snoc.
Qed.

Lemma report_latency_fields_witness :
  exists final,
    value (main (latency_world PlainSum four_latencies) args_four)
    = Some final
    /\ (forall host data, In (host, data) final ->
        0 < success data ->
        exists mn mx,
          In mn (times data) /\ In mx (times data)
          /\ host_lines PlainSum host data
             = header_lines host data
               ++ [lit "  Min: " ++ format_4f mn ++ lit " s";
                   lit "  Max: " ++ format_4f mx ++ lit " s";
                   lit "  Avg: "
                   ++ format_4f (float_div (py_sum PlainSum (times data))
                                   (float_of_nat (length (times data))))
                   ++ lit " s";
                   []])
    /\ printed (trace (main (latency_world PlainSum four_latencies)
                         args_four))
       = [lit "Host: https://a.com
  Success: 4
  Failed:  0
  Errors:  0
  Min: 0.0531 s
  Max: 1.1553 s
  Avg: 0.5649 s
"].
Proof.
  assert (H : accepted_hosts (latency_world PlainSum four_latencies) args_four
              = Some [host_a]) by (vm_compute; reflexivity).
  destruct (report_latency_fields
              (latency_world PlainSum four_latencies) args_four H)
    as (final & Hv & _ & Hb & _).
  exists final. split; [exact Hv|]. split.
  - intros host data Hin Hpos.
    destruct (Hb host data Hin) as (_ & _ & _ & Hne).
    destruct (Hne Hpos) as (mn & mx & Hmn & Hmx & _ & _ & Hl).
    exists mn, mx. split; [exact Hmn|]. split; [exact Hmx | exact Hl].
  - vm_compute. reflexivity.
Defined.

(** C9 as stated fails: for two successes with the latencies next to
    0.10005 the report shows 0.1001 as Avg, whichever way [sum] adds,
    while their arithmetic mean to four decimals is 0.1000. *)
Lemma average_is_not_the_arithmetic_mean :
  printed (trace (main (latency_world PlainSum two_latencies) args_two))
  = [lit "Host: https://a.com
  Success: 2
  Failed:  0
  Errors:  0
  Min: 0.1000 s
  Max: 0.1001 s
  Avg: 0.1001 s
"]
  /\ printed (trace (main (latency_world CompensatedSum two_latencies)
                       args_two))
     = printed (trace (main (latency_world PlainSum two_latencies) args_two))
  /\ spec_mean_4f two_latencies = lit "0.1000".
Proof.
  split; [vm_compute; reflexivity|].
  split; vm_compute; reflexivity.
Qed.

(** With the compensated sum of CPython 3.12 the four latencies of the
    sample give another last digit, while their arithmetic mean to four
    decimals is 0.5649. *)
Example compensated_sum_report :
  printed (trace (main (latency_world CompensatedSum four_latencies)
                    args_four))
  = [lit "Host: https://a.com
  Success: 4
  Failed:  0
  Errors:  0
  Min: 0.0531 s
  Max: 1.1553 s
  Avg: 0.5648 s
"]
  /\ spec_mean_4f four_latencies = lit "0.5649".
Proof. split; vm_compute; reflexivity. Qed.

(** The report of the sample run. *)
Example sample_report :
  printed (trace (main sample_world sample_args))
  = [lit "Host: https://a.com
  Success: 2
  Failed:  1
  Errors:  1
  Min: 0.5000 s
  Max: 2.5000 s
  Avg: 1.5000 s

Host: https://b.org/x
  Success: 1
  Failed:  0
  Errors:  1
  Min: 1.5000 s
  Max: 1.5000 s
  Avg: 1.5000 s
"].
Proof. vm_compute. reflexivity. Qed.

(** ** Examples *)

Example wrong_scheme_rejected :
  validate_host (lit "http://example.com") = false.
Proof. reflexivity. Qed.

Example embedded_space_rejected :
  validate_host (lit "https://exa mple.com") = false.
Proof. reflexivity. Qed.

Example path_accepted :
  validate_host (lit "https://example.com/a/b?c=d") = true.
Proof. reflexivity. Qed.

Example final_newline_accepted :
  validate_host (lit "https://example.com" ++ [newline]) = true.
Proof. reflexivity. Qed.

(** Three requests answered 200 for one target and two answered 503 for
    another. *)
Example three_successes_two_failures :
  let t := float_scaled 1 (-2) in
  aggregate (init_stats [host_a; host_b])
    [(host_a, Measured 200 t); (host_b, Measured 503 t);
     (host_a, Measured 200 t); (host_b, Measured 503 t);
     (host_a, Measured 200 t)]
  = Some [(host_a, mkStats 3 0 0 [t; t; t]); (host_b, mkStats 0 2 0 [])]
  /\ host_lines PlainSum host_b (mkStats 0 2 0 [])
     = [lit "Host: https://b.org/x"; lit "  Success: 0"; lit "  Failed:  2";
        lit "  Errors:  0"; lit "  Min: -"; lit "  Max: -"; lit "  Avg: -";
        lit ""]
  /\ host_lines PlainSum host_a (mkStats 3 0 0 [t; t; t])
     = [lit "Host: https://a.com"; lit "  Success: 3"; lit "  Failed:  0";
        lit "  Errors:  0"; lit "  Min: 0.2500 s"; lit "  Max: 0.2500 s";
        lit "  Avg: 0.2500 s"; lit ""].
Proof. vm_compute. auto. Qed.

(** * Further properties of the code *)

(** ** [validate_host] *)

Lemma host_char_not_space (c : N) : host_char c = true -> is_space c = false.
Proof.
  unfold host_char, is_space, in_range. intros H.
  repeat rewrite orb_true_iff in H. repeat rewrite andb_true_iff in H.
  repeat rewrite N.leb_le in H. repeat rewrite N.eqb_eq in H.
  repeat rewrite orb_false_iff. repeat rewrite andb_false_iff.
  repeat rewrite N.leb_gt. repeat rewrite N.eqb_neq.
  repeat split; lia.
Qed.

Lemma forallb_impl {A} (p q : A -> bool) (l : list A) :
  (forall x, p x = true -> q x = true) ->
  forallb p l = true -> forallb q l = true.
Proof.
  intros H. rewrite !forallb_forall. auto.
Qed.

(** X1: [validate_host] accepts exactly the strings made of [https://], a
    non-empty host of letters, digits, dots and hyphens, an optional path
    that starts with [/] and has no white space, and an optional final
    newline. *)
Theorem validate_host_accepts_url_format (url : str) :
  validate_host url = true <-> url_format url.
Proof. apply validate_host_spec. Qed.

Lemma validate_host_accepts_url_format_witness :
  url_format (lit "https://example.com/a/b?c=d").
Proof.
  apply validate_host_accepts_url_format. reflexivity.
Defined.

Lemma accepted_url_has_no_space_aux (url : str) :
  validate_host url = true ->
  exists body tail,
    url = body ++ tail /\ forallb not_space body = true
    /\ (tail = [] \/ tail = [newline]).
Proof.
  intros H. apply validate_host_spec in H
    as (host & path & tail & -> & _ & Hh & Hp & Ht).
  exists (lit "https://" ++ host ++ path), tail.
  split; [now rewrite <- !app_assoc|]. split; [|exact Ht].
  rewrite !forallb_app. apply andb_true_intro. split; [reflexivity|].
  apply andb_true_intro. split.
  - apply (forallb_impl host_char); auto.
    intros c Hc. unfold not_space. now rewrite host_char_not_space.
  - destruct Hp as [-> | (p & -> & Hp)]; [reflexivity|].
    simpl. exact Hp.
Qed.

(** X2: an accepted URL holds no white space, except for one newline at
    its very end. *)
Theorem accepted_url_has_no_space (url : str) :
  validate_host url = true ->
  exists body tail,
    url = body ++ tail /\ forallb not_space body = true
    /\ (tail = [] \/ tail = [newline]).
Proof. apply accepted_url_has_no_space_aux. Qed.

Lemma accepted_url_has_no_space_witness :
  exists body tail,
    lit "https://example.com" ++ [newline] = body ++ tail
    /\ forallb not_space body = true
    /\ (tail = [] \/ tail = [newline]).
Proof.
  apply accepted_url_has_no_space. reflexivity.
Defined.

(** ** [str.split] on the inline list *)

Lemma split_not_nil (sep : N) (s : str) : split sep s <> [].
Proof.
  destruct s as [|c s]; simpl; [discriminate|].
  destruct (c =? sep)%N; [discriminate|].
  destruct (split sep s); discriminate.
Qed.

Lemma split_no_sep (sep : N) (s : str) : ~ In sep s -> split sep s = [s].
Proof.
  induction s as [|c s IH]; simpl; auto.
  intros H. destruct (N.eqb_spec c sep) as [->|Hn]; [tauto|].
  rewrite IH by tauto. reflexivity.
Qed.

Lemma join_split (sep : N) (s : str) : join [sep] (split sep s) = s.
Proof.
  induction s as [|c s IH]; simpl; auto.
  pose proof (split_not_nil sep s) as Hne.
  destruct (N.eqb_spec c sep) as [->|Hn].
  - destruct (split sep s) as [|x xs]; [congruence|].
    change (join [sep] ([] :: x :: xs))
      with ([] ++ [sep] ++ join [sep] (x :: xs)).
    now rewrite IH.
  - destruct (split sep s) as [|x xs]; [congruence|].
    destruct xs as [|y ys].
    + simpl in *. now rewrite IH.
    + change (join [sep] ((c :: x) :: y :: ys))
        with (c :: x ++ [sep] ++ join [sep] (y :: ys)).
      change (join [sep] (x :: y :: ys))
        with (x ++ [sep] ++ join [sep] (y :: ys)) in IH.
      now rewrite IH.
Qed.

Lemma split_pieces (sep : N) (s : str) :
  forall x, In x (split sep s) -> ~ In sep x.
Proof.
  induction s as [|c s IH]; simpl.
  - intros x [<-|[]]. tauto.
  - destruct (N.eqb_spec c sep) as [->|Hn].
    + intros x [<-|Hx]; [tauto | auto].
    + pose proof (split_not_nil sep s) as Hne.
      destruct (split sep s) as [|y ys]; [congruence|].
      intros x [<-|Hx].
      * simpl. intros [E|Hy]; [congruence|].
        apply (IH y); simpl; auto.
      * apply IH. simpl. auto.
Qed.

Lemma split_snoc_sep (sep : N) (s : str) :
  split sep (s ++ [sep]) = split sep s ++ [[]].
Proof.
  induction s as [|c s IH]; simpl.
  - now rewrite N.eqb_refl.
  - rewrite IH. destruct (c =? sep)%N; [reflexivity|].
    pose proof (split_not_nil sep s) as Hne.
    destruct (split sep s); [congruence | reflexivity].
Qed.

Lemma split_length (sep : N) (s : str) :
  length (split sep s) = S (count_occ N.eq_dec s sep).
Proof.
  induction s as [|c s IH]; simpl; auto.
  destruct (N.eqb_spec c sep) as [->|Hn].
  - destruct (N.eq_dec sep sep); [|congruence]. simpl. now rewrite IH.
  - destruct (N.eq_dec c sep); [congruence|].
    pose proof (split_not_nil sep s) as Hne.
    destruct (split sep s); [congruence|]. simpl in *. exact IH.
Qed.

(** X3: the targets of the inline list are the pieces between its commas:
    there is one more target than there are commas, no target holds a
    comma, and the targets joined by commas give the [-H] argument back,
    so that nothing is trimmed or dropped. *)
Theorem inline_targets_are_the_pieces (w : World) (args : Args)
    (c : N) (s : str) :
  hosts args = Some (c :: s) ->
  truthy (file args) = false ->
  exists hs,
    get_hosts w args = ([], Some hs)
    /\ join [comma] hs = c :: s
    /\ length hs = S (count_occ N.eq_dec (c :: s) comma)
    /\ forall h, In h hs -> ~ In comma h.
Proof.
  intros Hh Hf. exists (split comma (c :: s)).
  split; [|split; [apply join_split | split;
            [apply split_length | apply split_pieces]]].
  unfold get_hosts. rewrite Hh.
  destruct (file args) as [[|c' p]|]; try discriminate; reflexivity.
Qed.

Lemma inline_targets_are_the_pieces_witness :
  exists hs,
    get_hosts sample_world sample_args = ([], Some hs)
    /\ join [comma] hs
       = 104%N :: lit "ttps://a.com,https://b.org/x,https://a.com"
    /\ length hs
       = S (count_occ N.eq_dec
              (104%N :: lit "ttps://a.com,https://b.org/x,https://a.com")
              comma)
    /\ forall h, In h hs -> ~ In comma h.
Proof.
  assert (H : hosts sample_args
              = Some (104%N
                      :: lit "ttps://a.com,https://b.org/x,https://a.com"))
    by (vm_compute; reflexivity).
  exact (@inline_targets_are_the_pieces sample_world sample_args
           104%N (lit "ttps://a.com,https://b.org/x,https://a.com")
           H eq_refl).
Defined.

Lemma main_stops_at (w : World) (args : Args) (pre post : list str)
    (bad : str) :
  truthy (hosts args) && truthy (file args) = false ->
  value (get_hosts w args) = Some (pre ++ bad :: post) ->
  forallb validate_host pre = true -> validate_host bad = false ->
  main w args = (trace (get_hosts w args) ++ [Print (msg_bad_url bad)], None).
Proof.
  intros Hb Hg Hp Hf. unfold main. rewrite Hb.
  destruct (get_hosts w args) as [t [hs'|]]; simpl in Hg; [|discriminate].
  injection Hg as ->. simpl.
  now rewrite (@check_hosts_bad pre post bad Hp Hf).
Qed.

(** X4: an inline list that ends with a comma has an empty last target;
    when the targets before it are well formed the run stops with the
    diagnostic for the empty string and issues no request. *)
Theorem trailing_comma_aborts (w : World) (n : Z) (out : option str)
    (c : N) (s : str) :
  Forall url_format (split comma (c :: s)) ->
  main w (mkArgs (Some (c :: s ++ [comma])) n None out)
  = ([Print (msg_bad_url [])], None).
Proof.
  intros Hv.
  apply (@main_stops_at w (mkArgs (Some (c :: s ++ [comma])) n None out)
           (split comma (c :: s)) [] []).
  - reflexivity.
  - cbn [get_hosts hosts file value snd ret].
    change (c :: s ++ [comma]) with ((c :: s) ++ [comma]).
    now rewrite split_snoc_sep.
  - now apply forallb_validate.
  - reflexivity.
Qed.

Lemma trailing_comma_aborts_witness :
  main sample_world (mkArgs (Some (lit "https://a.com,")) 1 None None)
  = ([Print (msg_bad_url [])], None).
Proof.
  apply (@trailing_comma_aborts sample_world 1 None 104%N
           (lit "ttps://a.com")).
  apply forallb_validate. reflexivity.
Defined.

Lemma requests_map_submit (l : list str) :
  requests (map Submit l) = map Submit l.
Proof. induction l as [|a l IH]; simpl; auto. unfold requests in *. simpl. now rewrite IH. Qed.

Lemma print_stats_no_submit (w : World) (s : Stats) (o : option str) :
  requests (trace (print_stats w s o)) = [].
Proof.
  unfold print_stats. destruct o as [[|c p]|]; simpl; auto.
  destruct (write_error w (c :: p) _); reflexivity.
Qed.

(** The requests of a run that passes every check: one per target and
    repetition, in the order of the input list. *)
Lemma main_requests (w : World) (args : Args) (hs : list str) :
  accepted_hosts w args = Some hs ->
  requests (trace (main w args)) = map Submit (tasks hs (count args)).
Proof.
  intros Hacc. destruct (main_run w args Hacc) as (final & _ & ->).
  unfold trace at 1. cbn [fst]. rewrite !requests_app.
  destruct (get_hosts_no_submit w args) as [-> _].
  now rewrite print_stats_no_submit, requests_map_submit, app_nil_r.
Qed.

(** X5: the pattern's [$] lets one final newline through: an inline
    target that is a well-formed URL followed by a newline passes the
    check, and its requests are issued for the string with the newline. *)
Theorem final_newline_is_submitted (w : World) (url : str) (n : Z)
    (out : option str) :
  validate_host url = true ->
  forallb not_space url = true ->
  ~ In comma url ->
  (1 <= n)%Z ->
  let args := mkArgs (Some (url ++ [newline])) n None out in
  validate_host (url ++ [newline]) = true
  /\ accepted_hosts w args = Some [url ++ [newline]]
  /\ requests (trace (main w args))
     = repeat (Submit (url ++ [newline])) (Z.to_nat n).
Proof.
  intros Hv Hs Hc Hn args.
  assert (Hv' : validate_host (url ++ [newline]) = true).
  { apply validate_host_spec in Hv
      as (host & path & tail & -> & Hne & Hh & Hp & Ht).
    apply validate_host_spec. exists host, path, [newline].
    destruct Ht as [-> | ->].
    - rewrite !app_nil_r, <- !app_assoc. repeat split; auto.
    - rewrite !forallb_app in Hs. simpl in Hs.
      repeat (apply andb_prop in Hs as [_ Hs]). discriminate. }
  assert (Hacc : accepted_hosts w args = Some [url ++ [newline]]).
  { destruct url as [|c u]; [discriminate|].
    unfold accepted_hosts, args, get_hosts. cbn [hosts file count app truthy].
    cbn [andb value snd ret].
    rewrite split_no_sep.
    - cbn [forallb]. change (c :: u ++ [newline]) with ((c :: u) ++ [newline]).
      rewrite Hv'. assert (E : (1 <=? n)%Z = true) by lia. now rewrite E.
    - change (c :: u ++ [newline]) with ((c :: u) ++ [newline]).
      rewrite in_app_iff. simpl. simpl in Hc.
      intros [H|[H|[]]]; [tauto | discriminate]. }
  split; [exact Hv'|]. split; [exact Hacc|].
  rewrite (main_requests w args Hacc). unfold tasks, args. simpl.
  rewrite app_nil_r. apply map_repeat.
Qed.

Lemma final_newline_is_submitted_witness :
  validate_host (host_a ++ [newline]) = true
  /\ accepted_hosts sample_world
       (mkArgs (Some (host_a ++ [newline])) 2 None None)
     = Some [host_a ++ [newline]]
  /\ requests (trace (main sample_world
                        (mkArgs (Some (host_a ++ [newline])) 2 None None)))
     = repeat (Submit (host_a ++ [newline])) (Z.to_nat 2).
Proof.
  apply (@final_newline_is_submitted sample_world host_a 2 None).
  - reflexivity.
  - reflexivity.
  - vm_compute. intuition discriminate.
  - lia.
Defined.

Lemma common_prefix_split (p : N -> bool) (c : N) :
  forall a' a r r',
    forallb p a = true -> forallb p a' = true -> p c = false ->
    a ++ c :: r = a' ++ r' ->
    exists a'', a = a' ++ a'' /\ r' = a'' ++ c :: r.
Proof.
  induction a' as [|x a' IH]; intros a r r' Ha Ha' Hc E.
  - exists a. auto.
  - simpl in Ha'. apply andb_prop in Ha' as [Hx Ha'].
    destruct a as [|y a]; simpl in E.
    + injection E as <- _. congruence.
    + injection E as <- E. simpl in Ha. apply andb_prop in Ha as [_ Ha].
      destruct (IH a r r' Ha Ha' Hc E) as (a'' & -> & ->).
      exists a''. auto.
Qed.

(** X6: after the host only a [/] may follow: a string in which the run
    of host characters is followed by any other character (a colon and a
    port, an at sign, an underscore, a space) is rejected, unless that
    character is a newline that ends the string. *)
Theorem host_must_be_followed_by_slash (host rest : str) (c : N) :
  forallb host_char host = true ->
  host_char c = false ->
  c <> 47%N ->
  (c <> newline \/ rest <> []) ->
  validate_host (lit "https://" ++ host ++ c :: rest) = false.
Proof.
  intros Hh Hc Hs Hn. apply validate_host_false.
  intros (h' & path & tail & E & Hne & Hh' & Hp & Ht).
  apply app_inv_head in E.
  destruct (common_prefix_split host_char c h' host rest (path ++ tail)
              Hh Hh' Hc E) as (a & -> & E').
  rewrite forallb_app in Hh. apply andb_prop in Hh as [_ Ha].
  destruct a as [|y a].
  - simpl in E'. destruct Hp as [-> | (p & -> & _)].
    + simpl in E'. destruct Ht as [-> | ->]; [discriminate|].
      injection E' as <- <-. destruct Hn; congruence.
    + simpl in E'. injection E' as <- _. congruence.
  - simpl in Ha. apply andb_prop in Ha as [Hy _].
    simpl in E'. destruct Hp as [-> | (p & -> & _)].
    + simpl in E'. destruct Ht as [-> | ->]; [discriminate|].
      injection E' as <- _. discriminate.
    + simpl in E'. injection E' as <- _. discriminate.
Qed.

Lemma host_must_be_followed_by_slash_witness :
  validate_host (lit "https://" ++ lit "localhost" ++ 58%N :: lit "8443")
  = false.
Proof.
  apply host_must_be_followed_by_slash.
  - reflexivity.
  - reflexivity.
  - discriminate.
  - left. discriminate.
Defined.

(** ** [load_hosts_from_file] *)

Lemma lstrip_split (s : str) :
  exists sp, s = sp ++ lstrip s /\ forallb is_space sp = true.
Proof.
  induction s as [|c s (sp & E & Hsp)]; simpl.
  - exists []. auto.
  - destruct (is_space c) eqn:Ec.
    + exists (c :: sp). simpl. rewrite Ec, Hsp. split; [congruence | auto].
    + exists []. auto.
Qed.

Lemma lstrip_head (s r : str) (c : N) :
  lstrip s = c :: r -> is_space c = false.
Proof.
  induction s as [|x s IH]; simpl; [discriminate|].
  destruct (is_space x) eqn:Ex; auto.
  intros [= <- _]. exact Ex.
Qed.

Lemma lstrip_blank (s : str) : forallb is_space s = true -> lstrip s = [].
Proof.
  induction s as [|c s IH]; simpl; auto.
  intros H. apply andb_prop in H as [Hc Hs]. rewrite Hc. auto.
Qed.

Lemma forallb_rev {A} (p : A -> bool) (l : list A) :
  forallb p (rev l) = forallb p l.
Proof.
  induction l as [|a l IH]; simpl; auto.
  rewrite forallb_app, IH. simpl. rewrite andb_true_r. apply andb_comm.
Qed.

(** [strip] removes white space at both ends and nothing else. *)
Lemma strip_sandwich (s : str) :
  exists a b, s = a ++ strip s ++ b
              /\ forallb is_space a = true /\ forallb is_space b = true.
Proof.
  destruct (lstrip_split s) as (a & Ea & Ha).
  destruct (lstrip_split (rev (lstrip s))) as (sp & Eb & Hb).
  exists a, (rev sp). unfold strip. split; [|split; auto].
  - rewrite <- rev_app_distr, <- Eb, rev_involutive. exact Ea.
  - now rewrite forallb_rev.
Qed.

Lemma strip_blank (s : str) : strip s = [] <-> forallb is_space s = true.
Proof.
  split.
  - intros E. destruct (strip_sandwich s) as (a & b & Es & Ha & Hb).
    rewrite E in Es. rewrite Es, forallb_app, Ha. exact Hb.
  - intros H. unfold strip. now rewrite (lstrip_blank s H).
Qed.

Lemma lstrip_strip (s : str) : exists b, lstrip s = strip s ++ b.
Proof.
  destruct (lstrip_split (rev (lstrip s))) as (sp & Eb & _).
  exists (rev sp). unfold strip.
  now rewrite <- rev_app_distr, <- Eb, rev_involutive.
Qed.

Lemma strip_ends (s : str) :
  strip s <> [] ->
  is_space (hd 0%N (strip s)) = false /\ is_space (last (strip s) 0%N) = false.
Proof.
  intros Hne. split.
  - destruct (lstrip_strip s) as (b & Eb).
    destruct (strip s) as [|c r]; [congruence|]. simpl.
    exact (lstrip_head s Eb).
  - unfold strip in *.
    destruct (lstrip (rev (lstrip s))) as [|y u] eqn:E;
      [simpl in Hne; congruence|].
    simpl. rewrite last_last. exact (lstrip_head _ E).
Qed.

Lemma filter_map_strip (lines : list str) :
  filter nonempty (map strip lines)
  = map strip (filter (fun l => negb (forallb is_space l)) lines).
Proof.
  induction lines as [|l lines IH]; simpl; auto.
  destruct (forallb is_space l) eqn:E; simpl.
  - apply strip_blank in E. rewrite E. simpl. exact IH.
  - destruct (strip l) as [|c r] eqn:Es.
    + apply strip_blank in Es. congruence.
    + simpl. now rewrite IH.
Qed.

(** X7: [load_hosts_from_file] opens the file once and returns, in file
    order, the lines that are not blank, each without the white space
    around it: a returned host is not empty, neither begins nor ends with
    white space, and differs from its line by white space at the two ends
    only. *)
Theorem file_hosts_are_stripped_lines (w : World) (path : str)
    (lines : list str) :
  read_lines w path = inr lines ->
  let hs := map strip (filter (fun l => negb (forallb is_space l)) lines) in
  load_hosts_from_file w path = ([OpenRead path], Some (inr hs))
  /\ forall h, In h hs ->
       h <> []
       /\ is_space (hd 0%N h) = false /\ is_space (last h 0%N) = false
       /\ exists line a b,
            In line lines /\ line = a ++ h ++ b
            /\ forallb is_space a = true /\ forallb is_space b = true.
Proof.
  intros Hr hs. split.
  - unfold load_hosts_from_file. rewrite Hr. simpl.
    now rewrite filter_map_strip.
  - intros h Hh. unfold hs in Hh. apply in_map_iff in Hh as (l & <- & Hl).
    apply filter_In in Hl as [Hin Hb].
    assert (Hne : strip l <> []).
    { intros E. apply strip_blank in E. rewrite E in Hb. discriminate. }
    split; [exact Hne|].
    destruct (strip_ends l Hne) as [H1 H2]. split; [exact H1|].
    split; [exact H2|].
    destruct (strip_sandwich l) as (a & b & E & Ha & Hb').
    exists l, a, b. auto.
Qed.

Lemma file_hosts_are_stripped_lines_witness :
  load_hosts_from_file file_world (lit "hosts.txt")
  = ([OpenRead (lit "hosts.txt")], Some (inr [host_a; host_b])).
Proof.
  apply (@file_hosts_are_stripped_lines file_world (lit "hosts.txt")
           [lit "https://a.com" ++ [newline]; lit "   " ++ [newline];
            lit "  https://b.org/x  " ++ [newline]]).
  reflexivity.
Defined.

(** X8: when the host file cannot be read, the run opens it, prints one
    line that names the file and gives the reason, and stops: nothing is
    validated and no request is issued. *)
Theorem unreadable_host_file_aborts (w : World) (args : Args)
    (c : N) (p e : str) :
  file args = Some (c :: p) ->
  truthy (hosts args) = false ->
  read_lines w (c :: p) = inl e ->
  main w args
  = ([OpenRead (c :: p);
      Print (lit "Ошибка чтения файла '" ++ (c :: p) ++ lit "': " ++ e)],
     None).
Proof.
  intros Hf Hh Hr. unfold main, get_hosts, load_hosts_from_file.
  rewrite Hh, Hf, Hr. reflexivity.
Qed.

Lemma unreadable_host_file_aborts_witness :
  main sample_world args_file
  = ([OpenRead (104%N :: lit "osts.txt");
      Print (lit "Ошибка чтения файла '" ++ (104%N :: lit "osts.txt")
             ++ lit "': " ++ lit "No such file or directory")],
     None).
Proof.
  assert (H : file args_file = Some (104%N :: lit "osts.txt"))
    by (vm_compute; reflexivity).
  exact (@unreadable_host_file_aborts sample_world args_file 104%N
           (lit "osts.txt") (lit "No such file or directory")
           H eq_refl eq_refl).
Defined.

Lemma blank_lines_no_hosts (lines : list str) :
  forallb (forallb is_space) lines = true ->
  filter nonempty (map strip lines) = [].
Proof.
  rewrite filter_map_strip.
  induction lines as [|l lines IH]; simpl; auto.
  intros H. apply andb_prop in H as [Hl Hb]. rewrite Hl. simpl. auto.
Qed.

(** X9: a host file without a non-blank line is not refused: with a
    repeat count of at least one the run issues no request and reports
    empty statistics (an empty line on the console when no output file is
    given). *)
Theorem blank_host_file_gives_empty_report (w : World) (args : Args)
    (c : N) (p : str) (lines : list str) :
  file args = Some (c :: p) ->
  truthy (hosts args) = false ->
  read_lines w (c :: p) = inr lines ->
  forallb (forallb is_space) lines = true ->
  (1 <= count args)%Z ->
  main w args
  = (OpenRead (c :: p) :: trace (print_stats w [] (output args)), Some [])
  /\ requests (trace (main w args)) = []
  /\ (truthy (output args) = false ->
      printed (trace (main w args)) = [[]]).
Proof.
  intros Hf Hh Hr Hb Hc.
  pose proof (blank_lines_no_hosts lines Hb) as Hs.
  assert (Hm : main w args
          = (OpenRead (c :: p) :: trace (print_stats w [] (output args)),
             Some [])).
  { unfold main, get_hosts, load_hosts_from_file.
    rewrite Hh, Hf, Hr. simpl. rewrite Hs. simpl.
    assert (E : (count args <? 1)%Z = false) by lia. rewrite E. simpl.
    change (init_stats []) with ([] : Stats).
    pose proof (print_stats_value w [] (output args)) as Hv.
    destruct (print_stats w [] (output args)) as [t [[]|]]; simpl in *;
      [|discriminate].
    now rewrite app_nil_r. }
  split; [exact Hm|]. rewrite Hm. split.
  - unfold trace at 1. cbn [fst]. unfold requests. simpl.
    apply print_stats_no_submit.
  - intros Ho. unfold print_stats.
    destruct (output args) as [[|c' p']|]; try discriminate; reflexivity.
Qed.

Lemma blank_host_file_gives_empty_report_witness :
  main blank_file_world args_file
  = (OpenRead (104%N :: lit "osts.txt")
     :: trace (print_stats blank_file_world [] (output args_file)), Some [])
  /\ requests (trace (main blank_file_world args_file)) = [].
Proof.
  assert (H1 : file args_file = Some (104%N :: lit "osts.txt"))
    by (vm_compute; reflexivity).
  assert (H2 : forallb (forallb is_space) [[newline]; lit "  " ++ [newline]]
               = true) by (vm_compute; reflexivity).
  assert (H3 : (1 <= count args_file)%Z) by (simpl; lia).
  destruct (@blank_host_file_gives_empty_report blank_file_world args_file
              104%N (lit "osts.txt") [[newline]; lit "  " ++ [newline]]
              H1 eq_refl eq_refl H2 H3) as (Hm & Hr & _).
  split; [exact Hm | exact Hr].
Defined.

Lemma get_hosts_file_mode (w : World) (args : Args) (c : N) (p : str)
    (hs : list str) :
  file args = Some (c :: p) ->
  value (get_hosts w args) = Some hs ->
  exists lines, read_lines w (c :: p) = inr lines
                /\ hs = filter nonempty (map strip lines).
Proof.
  intros Hf. unfold get_hosts, load_hosts_from_file. rewrite Hf.
  destruct (read_lines w (c :: p)) as [e|lines]; simpl; [discriminate|].
  intros [= <-]. eauto.
Qed.

(** X10: in file mode a target that passes the check holds no white
    space at all: the final newline that the pattern tolerates has been
    stripped with the rest of the line's white space. *)
Theorem file_targets_have_no_space (w : World) (args : Args) (c : N)
    (p : str) (hs : list str) :
  file args = Some (c :: p) ->
  accepted_hosts w args = Some hs ->
  forall h, In h hs -> forallb not_space h = true.
Proof.
  intros Hf Hacc h Hh.
  apply accepted_hosts_inv in Hacc as (_ & Hg & Hv & _).
  destruct (get_hosts_file_mode w args Hf Hg) as (lines & Hr & ->).
  rewrite forallb_forall in Hv. specialize (Hv h Hh).
  rewrite filter_map_strip in Hh. apply in_map_iff in Hh as (l & <- & Hl).
  apply filter_In in Hl as [_ Hb].
  assert (Hne : strip l <> []).
  { intros E. apply strip_blank in E. rewrite E in Hb. discriminate. }
  destruct (strip_ends l Hne) as [_ Hlast].
  destruct (accepted_url_has_no_space_aux (strip l) Hv)
    as (body & tail & E & Hbody & [-> | ->]).
  - now rewrite E, app_nil_r.
  - rewrite E, last_last in Hlast. discriminate.
Qed.

Lemma file_targets_have_no_space_witness :
  forallb not_space host_b = true.
Proof.
  apply (@file_targets_have_no_space file_world args_file 104%N
           (lit "osts.txt") [host_a; host_b]).
  - reflexivity.
  - vm_compute. reflexivity.
  - right. left. reflexivity.
Defined.

(** ** Options and output *)

(** X11: an option given as the empty string counts as not given: an
    empty [-H], [-F] or [-O] leaves the run exactly as it is without that
    option. *)
Theorem empty_options_are_absent (w : World) (n : Z)
    (h f o : option str) :
  main w (mkArgs (Some []) n f o) = main w (mkArgs None n f o)
  /\ main w (mkArgs h n (Some []) o) = main w (mkArgs h n None o)
  /\ main w (mkArgs h n f (Some [])) = main w (mkArgs h n f None).
Proof.
  split; [|split].
  - unfold main, get_hosts. cbn [hosts file count output truthy andb].
    destruct f as [[|c p]|]; reflexivity.
  - unfold main, get_hosts. cbn [hosts file count output truthy].
    rewrite andb_false_r. destruct h as [[|c s]|]; reflexivity.
  - reflexivity.
Qed.

Lemma printed_map_submit (l : list str) : printed (map Submit l) = [].
Proof. induction l as [|a l IH]; simpl; auto. Qed.

(** X12: with an output file the report is written there and not shown:
    the console stays empty when the file can be written, and shows only
    the line about the failed write when it cannot; the statistics are
    returned in both cases. *)
Theorem report_goes_to_output_file (w : World) (args : Args)
    (hs : list str) (c : N) (p : str) :
  accepted_hosts w args = Some hs ->
  output args = Some (c :: p) ->
  exists final,
    value (main w args) = Some final
    /\ let report := join [newline] (report_lines (sum_alg w) final) in
       In (OpenWrite (c :: p) report) (trace (main w args))
       /\ printed (trace (main w args))
          = match write_error w (c :: p) report with
            | None => []
            | Some e =>
              [lit "Ошибка записи в файл '" ++ (c :: p) ++ lit "': " ++ e]
            end.
Proof.
  intros Hacc Ho. destruct (main_run w args Hacc) as (final & _ & Hm).
  exists final. split; [now rewrite Hm|]. cbv zeta.
  assert (Ht : trace (main w args)
               = trace (get_hosts w args)
                 ++ map Submit (tasks hs (count args))
                 ++ trace (print_stats w final (output args)))
    by now rewrite Hm.
  rewrite Ht. clear Ht Hm.
  apply accepted_hosts_inv in Hacc as (_ & Hg & _ & _).
  pose proof (get_hosts_printed w args) as Hp. rewrite Hg in Hp.
  rewrite !printed_app, Hp, printed_map_submit. cbn [app].
  rewrite Ho. unfold print_stats.
  split.
  - rewrite !in_app_iff. right. right.
    destruct (write_error w (c :: p) _); simpl; auto.
  - destruct (write_error w (c :: p) _); reflexivity.
Qed.

Lemma report_goes_to_output_file_witness :
  exists final,
    value (main file_world args_file_output) = Some final
    /\ let report :=
         join [newline] (report_lines (sum_alg file_world) final) in
       In (OpenWrite (lit "report.txt") report)
          (trace (main file_world args_file_output))
       /\ printed (trace (main file_world args_file_output))
          = match write_error file_world (lit "report.txt") report with
            | None => []
            | Some e =>
              [lit "Ошибка записи в файл '" ++ lit "report.txt" ++ lit "': "
               ++ e]
            end.
Proof.
  apply (@report_goes_to_output_file file_world args_file_output
           [host_a; host_b] 114%N (lit "eport.txt")).
  - vm_compute. reflexivity.
  - reflexivity.
Defined.

(** ** The layout of the report *)



















(** ** The final statistics *)

Lemma final_entry (w : World) (args : Args) (hs : list str) (h : str) :
  accepted_hosts w args = Some hs ->
  In h hs ->
  exists final,
    value (main w args) = Some final
    /\ dict_get h final
       = Some (apply_all
                 (for_host h (completions w (futures_of hs (count args))))
                 zero_stats).
Proof.
  intros Hacc Hh. destruct (main_run w args Hacc) as (final & Hf & Hm).
  exists final. rewrite Hm. split; [reflexivity|].
  now rewrite (aggregate_get h _ _ Hf), (init_stats_get hs h Hh).
Qed.

(** X14: whatever the completion order, the final counters of a target
    are the numbers of its submitted tasks that ended in each class, and
    its latencies are the elapsed times of the successful ones. *)
Theorem final_counters_count_submitted_tasks (w : World) (args : Args)
    (hs : list str) (h : str) :
  accepted_hosts w args = Some hs ->
  In h hs ->
  let rs := for_host h (outcomes w (futures_of hs (count args))) in
  exists final d,
    value (main w args) = Some final
    /\ dict_get h final = Some d
    /\ success d = length (filter is_success rs)
    /\ failed d = length (filter is_failed rs)
    /\ errors d = length (filter is_error rs)
    /\ Permutation (times d) (latencies rs).
Proof.
  intros Hacc Hh rs. destruct (final_entry w args h Hacc Hh) as (final & Hv & Hd).
  exists final. eexists. split; [exact Hv|]. split; [exact Hd|].
  rewrite apply_all_closed. cbn [success failed errors times app].
  pose proof (for_host_perm h (completions_perm w
                (futures_of hs (count args)))) as Hp.
  repeat split.
  - apply Permutation_length, Permutation_filter, Hp.
  - apply Permutation_length, Permutation_filter, Hp.
  - apply Permutation_length, Permutation_filter, Hp.
  - unfold latencies. apply Permutation_flat_map, Hp.
Qed.

Lemma final_counters_count_submitted_tasks_witness :
  exists final d,
    value (main sample_world sample_args) = Some final
    /\ dict_get host_a final = Some d
    /\ success d = 2 /\ failed d = 1 /\ errors d = 1.
Proof.
  assert (H : accepted_hosts sample_world sample_args
              = Some [host_a; host_b; host_a]) by (vm_compute; reflexivity).
  destruct (@final_counters_count_submitted_tasks sample_world sample_args
              [host_a; host_b; host_a] host_a H (or_introl eq_refl))
    as (final & d & Hv & Hd & H1 & H2 & H3 & _).
  exists final, d. repeat split; auto.
Defined.

Lemma get_hosts_same_files (w1 w2 : World) (args : Args) :
  (forall path, read_lines w1 path = read_lines w2 path) ->
  get_hosts w1 args = get_hosts w2 args.
Proof.
  intros H. unfold get_hosts, load_hosts_from_file.
  destruct (file args) as [[|c p]|]; auto. now rewrite H.
Qed.

(** X15: two runs of the same command line that read the same files and
    get the same answers to their requests, but complete their tasks in
    different orders, end with the same targets in the same order, the
    same counters, and the same latencies up to their order. *)
Theorem statistics_independent_of_schedule (w1 w2 : World) (args : Args)
    (hs : list str) :
  accepted_hosts w1 args = Some hs ->
  (forall path, read_lines w1 path = read_lines w2 path) ->
  (forall i url, calls w1 i url = calls w2 i url) ->
  exists f1 f2,
    value (main w1 args) = Some f1
    /\ value (main w2 args) = Some f2
    /\ dict_keys f1 = dict_keys f2
    /\ forall h, In h hs ->
         exists d1 d2, dict_get h f1 = Some d1 /\ dict_get h f2 = Some d2
                       /\ same_stats d1 d2.
Proof.
  intros Hacc Hr Hc.
  assert (Hacc2 : accepted_hosts w2 args = Some hs).
  { unfold accepted_hosts in *.
    now rewrite <- (get_hosts_same_files w1 w2 args Hr). }
  destruct (main_run w1 args Hacc) as (f1 & Hf1 & Hm1).
  destruct (main_run w2 args Hacc2) as (f2 & Hf2 & Hm2).
  exists f1, f2. rewrite Hm1, Hm2.
  split; [reflexivity|]. split; [reflexivity|]. split.
  - now rewrite (aggregate_keys _ _ Hf1), (aggregate_keys _ _ Hf2).
  - intros h Hh.
    assert (Hp : Permutation
              (for_host h (completions w1 (futures_of hs (count args))))
              (for_host h (completions w2 (futures_of hs (count args))))).
    { apply for_host_perm.
      rewrite (completions_perm w1), (completions_perm w2).
      unfold outcomes.
      erewrite map_ext; [reflexivity|].
      intros [i url]. unfold perform_request. now rewrite Hc. }
    do 2 eexists.
    rewrite (aggregate_get h _ _ Hf1), (aggregate_get h _ _ Hf2).
    rewrite (init_stats_get hs h Hh). cbn [option_map].
    split; [reflexivity|]. split; [reflexivity|].
    rewrite !apply_all_closed. unfold same_stats.
    cbn [success failed errors times app]. repeat split.
    + apply Permutation_length, Permutation_filter, Hp.
    + apply Permutation_length, Permutation_filter, Hp.
    + apply Permutation_length, Permutation_filter, Hp.
    + unfold latencies. apply Permutation_flat_map, Hp.
Qed.

Lemma statistics_independent_of_schedule_witness :
  exists f1 f2,
    value (main sample_world sample_args) = Some f1
    /\ value (main sample_world_fifo sample_args) = Some f2
    /\ dict_keys f1 = dict_keys f2
    /\ forall h, In h [host_a; host_b; host_a] ->
         exists d1 d2, dict_get h f1 = Some d1 /\ dict_get h f2 = Some d2
                       /\ same_stats d1 d2.
Proof.
  apply (@statistics_independent_of_schedule sample_world sample_world_fifo
           sample_args [host_a; host_b; host_a]).
  - vm_compute. reflexivity.
  - reflexivity.
  - reflexivity.
Defined.

Lemma apply_all_none (rs : list result) (d : TargetStats) :
  (forall r, In r rs -> r = NoneNone) ->
  apply_all rs d
  = mkStats (success d) (failed d) (errors d + length rs) (times d).
Proof.
  revert d. induction rs as [|r rs IH]; intros d H.
  - destruct d. simpl. f_equal. lia.
  - change (apply_all (r :: rs) d) with (apply_all rs (classify r d)).
    rewrite (H r (or_introl eq_refl)).
    rewrite IH by (intros r' Hr'; apply H; now right).
    simpl. f_equal. lia.
Qed.

(** X16: a target all of whose requests fail at the transport level ends
    with no success, no failure and one error per submitted task, and its
    block in the report shows [-] for the three latency fields. *)
Theorem unreachable_target_has_only_errors (w : World) (args : Args)
    (hs : list str) (h : str) :
  accepted_hosts w args = Some hs ->
  In h hs ->
  (forall i, exists e, reply (calls w i h) = Raises e) ->
  let d := mkStats 0 0 (count_occ str_eq_dec hs h * Z.to_nat (count args)) []
  in
  exists final,
    value (main w args) = Some final
    /\ dict_get h final = Some d
    /\ host_lines (sum_alg w) h d
       = header_lines h d
         ++ [lit "  Min: -"; lit "  Max: -"; lit "  Avg: -"; []].
Proof.
  intros Hacc Hh Hall d.
  destruct (final_entry w args h Hacc Hh) as (final & Hv & Hd).
  exists final. split; [exact Hv|]. split; [|reflexivity].
  rewrite Hd. f_equal.
  set (done := completions w (futures_of hs (count args))).
  assert (Hn : forall r, In r (for_host h done) -> r = NoneNone).
  { intros r Hr.
    apply (Permutation_in _ (for_host_perm h (completions_perm w _))) in Hr.
    unfold for_host, outcomes in Hr.
    apply in_map_iff in Hr as ([h' r'] & <- & Hr).
    apply filter_In in Hr as [Hr Eh]. simpl in Eh.
    apply str_eqb_eq in Eh. subst h'.
    apply in_map_iff in Hr as ([i url] & E & _).
    injection E as -> <-. destruct (Hall i) as [e He].
    unfold perform_request. now rewrite He. }
  rewrite (apply_all_none _ zero_stats Hn). unfold d. simpl. f_equal.
  unfold done.
  rewrite (Permutation_length (for_host_perm h (completions_perm w _))).
  rewrite for_host_length, outcomes_hosts, futures_hosts.
  apply tasks_count_occ.
Qed.

Lemma unreachable_target_has_only_errors_witness :
  exists final,
    value (main offline_world sample_args) = Some final
    /\ dict_get host_a final = Some (mkStats 0 0 4 []).
Proof.
  assert (H : accepted_hosts offline_world sample_args
              = Some [host_a; host_b; host_a]) by (vm_compute; reflexivity).
  destruct (@unreachable_target_has_only_errors offline_world sample_args
              [host_a; host_b; host_a] host_a H (or_introl eq_refl))
    as (final & Hv & Hd & _).
  - intros i. exists ConnectTimeout. reflexivity.
  - exists final. split; [exact Hv | exact Hd].
Defined.

(** ** The order of the effects *)

Lemma get_hosts_trace (w : World) (args : Args) (hs : list str) :
  value (get_hosts w args) = Some hs ->
  trace (get_hosts w args)
  = match file args with
    | Some (c :: p) => [OpenRead (c :: p)]
    | _ => []
    end.
Proof.
  unfold get_hosts, load_hosts_from_file.
  destruct (file args) as [[|c p]|], (hosts args) as [[|c' s]|]; simpl;
    try destruct (read_lines w (c :: p)); simpl;
    intros H; try discriminate; reflexivity.
Qed.

Lemma submit_tasks (hs : list str) (n : Z) :
  map Submit (tasks hs n)
  = flat_map (fun host => repeat (Submit host) (Z.to_nat n)) hs.
Proof.
  unfold tasks. induction hs as [|a hs IH]; simpl; auto.
  now rewrite map_app, map_repeat, IH.
Qed.

(** X17: a run that passes every check does things in this order: in
    file mode it opens the host file, once, and in inline mode no file;
    then it submits one task per target and repetition, target by target
    in input order; only then does it report. *)
Theorem effects_in_order (w : World) (args : Args) (hs : list str) :
  accepted_hosts w args = Some hs ->
  exists final,
    main w args
    = (match file args with
       | Some (c :: p) => [OpenRead (c :: p)]
       | _ => []
       end
       ++ flat_map (fun host => repeat (Submit host) (Z.to_nat (count args)))
                   hs
       ++ trace (print_stats w final (output args)),
       Some final).
Proof.
  intros Hacc. destruct (main_run w args Hacc) as (final & _ & Hm).
  exists final. rewrite Hm.
  apply accepted_hosts_inv in Hacc as (_ & Hg & _ & _).
  now rewrite (get_hosts_trace w args Hg), submit_tasks.
Qed.

Lemma effects_in_order_witness :
  exists final,
    main file_world args_file
    = ([OpenRead (lit "hosts.txt")]
       ++ [Submit host_a; Submit host_b]
       ++ trace (print_stats file_world final None),
       Some final).
Proof.
  apply (@effects_in_order file_world args_file [host_a; host_b]).
  vm_compute. reflexivity.
Defined.

(** ** Missing keys *)

Lemma aggregate_known_hosts (p : list (str * result)) :
  forall s s',
    aggregate s p = Some s' ->
    forall x, In x p -> In (fst x) (dict_keys s).
Proof.
  induction p as [|[host r] p IH]; intros s s'; simpl; [tauto|].
  destruct (fold_result s host r) as [s1|] eqn:E; [|discriminate].
  intros H x [<-|Hx].
  - apply fold_result_inv in E as (d & Hd & _).
    apply dict_get_In. simpl. congruence.
  - apply fold_result_inv in E as (d & Hd & ->).
    rewrite <- (@dict_keys_set_present _ host (classify r d) s).
    + now apply (IH _ s').
    + apply dict_get_In. congruence.
Qed.

(** X18: the loop that folds the results fails with [KeyError] exactly
    when some result belongs to a host that has no entry; otherwise it
    ends and leaves the keys and their order as they were. *)
Theorem aggregate_fails_on_unknown_host (stats : Stats)
    (completed : list (str * result)) :
  (aggregate stats completed = None
   <-> exists x, In x completed /\ ~ In (fst x) (dict_keys stats))
  /\ forall stats', aggregate stats completed = Some stats' ->
       dict_keys stats' = dict_keys stats.
Proof.
  split; [split|].
  - intros Hn.
    destruct (Exists_dec (fun x => ~ In (fst x) (dict_keys stats)) completed)
      as [He|Hne].
    + intros x. destruct (in_dec str_eq_dec (fst x) (dict_keys stats));
        [right | left]; tauto.
    + apply Exists_exists in He. exact He.
    + exfalso. destruct (aggregate_some completed stats) as [s' Hs'];
        [|congruence].
      intros x Hx.
      destruct (in_dec str_eq_dec (fst x) (dict_keys stats)); auto.
      exfalso. apply Hne, Exists_exists. eauto.
  - intros (x & Hx & Hk).
    destruct (aggregate stats completed) as [s'|] eqn:E; auto.
    exfalso. apply Hk. exact (aggregate_known_hosts _ _ E x Hx).
  - intros stats' H. exact (aggregate_keys _ _ H).
Qed.

Lemma aggregate_fails_on_unknown_host_witness :
  aggregate (init_stats [host_a]) [(host_a, NoneNone); (host_b, NoneNone)]
  = None.
Proof.
  apply aggregate_fails_on_unknown_host.
  exists (host_b, NoneNone). split.
  - right. left. reflexivity.
  - simpl. intros [H|[]]. discriminate.
Defined.

(** ** No exception leaves [main] *)

Lemma get_hosts_no_exception (w : World) (args : Args) :
  forallb no_exception (trace (get_hosts w args)) = true.
Proof.
  unfold get_hosts, load_hosts_from_file.
  destruct (file args) as [[|c p]|], (hosts args) as [[|c' s]|]; simpl;
    try destruct (read_lines w (c :: p)); reflexivity.
Qed.

Lemma print_stats_no_exception (w : World) (s : Stats) (o : option str) :
  forallb no_exception (trace (print_stats w s o)) = true.
Proof.
  unfold print_stats. destruct o as [[|c p]|]; simpl; auto.
  destruct (write_error w (c :: p) _); reflexivity.
Qed.

Lemma map_submit_no_exception (l : list str) :
  forallb no_exception (map Submit l) = true.
Proof. induction l as [|a l IH]; simpl; auto. Qed.

(** The ways in which [main] ends. *)
Lemma main_cases (w : World) (args : Args) :
  main w args = ([Print msg_both], None)
  \/ main w args = (trace (get_hosts w args), None)
  \/ (exists bad,
        main w args
        = (trace (get_hosts w args) ++ [Print (msg_bad_url bad)], None))
  \/ main w args = (trace (get_hosts w args) ++ [Print msg_count], None)
  \/ exists hs, accepted_hosts w args = Some hs.
Proof.
  unfold main, accepted_hosts.
  destruct (truthy (hosts args) && truthy (file args)).
  { left. reflexivity. }
  destruct (get_hosts w args) as [t [hs|]]; simpl.
  - destruct (check_hosts_cases hs)
      as [[Hv ->] | (pre & bad & post & -> & _ & Hb & ->)].
    + rewrite Hv. simpl. destruct (count args <? 1)%Z eqn:Ecnt.
      * right. right. right. left. reflexivity.
      * do 4 right. exists hs.
        assert (E : (1 <=? count args)%Z = true) by lia. now rewrite E.
    + right. right. left. exists bad. reflexivity.
  - right. left. reflexivity.
Qed.

(** X19: the lookups [stats[host]] of the aggregation loop never fail in
    a run: every result belongs to a target that got its entry before the
    tasks were submitted, so that no [KeyError] leaves [main], whatever
    the command line, the files, the answers and the completion order. *)
Theorem main_never_raises_key_error (w : World) (args : Args) :
  forallb no_exception (trace (main w args)) = true.
Proof.
  pose proof (get_hosts_no_exception w args) as Hg.
  destruct (main_cases w args)
    as [-> | [-> | [[bad ->] | [-> | [hs Hacc]]]]].
  - reflexivity.
  - exact Hg.
  - unfold trace at 1. cbn [fst]. now rewrite forallb_app, Hg.
  - unfold trace at 1. cbn [fst]. now rewrite forallb_app, Hg.
  - destruct (main_run w args Hacc) as (final & _ & ->).
    unfold trace at 1. cbn [fst]. rewrite !forallb_app.
    now rewrite Hg, map_submit_no_exception, print_stats_no_exception.
Qed.

(** ** Rounding of the printed latencies *)

(** X20: a latency is printed as its exact binary value rounded to four
    decimals, to the nearest and on a tie to the even digit: the printed
    digits are those of an integer [q] that differs from the value times
    [10^4] by at most one half. *)
Theorem format_4f_rounds_to_nearest (s : bool) (m : positive) (e : Z) :
  let q := scaled4 m e in
  (0 <= q)%Z
  /\ ((0 <= e)%Z -> q = (Zpos m * 2 ^ e * 10000)%Z)
  /\ ((e < 0)%Z ->
      (2 * Z.abs (q * 2 ^ (- e) - Zpos m * 10000) <= 2 ^ (- e))%Z
      /\ ((2 * Z.abs (q * 2 ^ (- e) - Zpos m * 10000) = 2 ^ (- e))%Z ->
          Z.even q = true))
  /\ exists ip d1 d2 d3 d4,
       (d1 < 10 /\ d2 < 10 /\ d3 < 10 /\ d4 < 10)%N
       /\ Z.to_N q = (10000 * ip + 1000 * d1 + 100 * d2 + 10 * d3 + d4)%N
       /\ format_4f (S754_finite s m e)
          = sign_str s ++ str_of_N ip ++ lit "."
            ++ [48 + d1; 48 + d2; 48 + d3; 48 + d4]%N.
Proof. exact (format_4f_digits s m e). Qed.

Lemma format_4f_rounds_to_nearest_witness :
  (2 * Z.abs (scaled4 1 (-5) * 2 ^ (- (-5)) - Zpos 1 * 10000)
   <= 2 ^ (- (-5)))%Z
  /\ scaled4 1 (-5) = 312%Z.
Proof.
  split.
  - apply (format_4f_rounds_to_nearest false 1 (-5)). lia.
  - reflexivity.
Defined.
